(** * Rabbus: a resilient AMQP façade (rabbus.go)

    A shallow embedding of [rabbus.go]: the producer pipeline
    ([register], [produce]), the subscribe path ([Listen] and its relay
    goroutine), [Close], [NewRabbus] and the reconnection watcher
    ([notifyClose]).

    The broker, the clock and the caller-supplied callback are the
    environment.  Every call that leaves the package is recorded, with its
    result, in a trace; the broker's answers are given by an oracle that
    sees the trace so far, so any broker behaviour can be expressed. *)

From stdpp Require Import base gmap strings list.
From Stdlib Require Import ZArith Lia.

Local Open Scope Z_scope.

(** ** Constants (rabbus.go, lines 12-21) *)

Definition Transient : Z := 1.
Definition Persistent : Z := 2.
Definition ContentTypeJSON : string := "application/json".
Definition ContentTypePlain : string := "plain/text".

(** Handles of broker connections and channels ([*amqp.Connection],
    [*amqp.Channel]) and references to caller-supplied Go functions. *)
Definition Handle := nat.
Definition FuncRef := nat.

(** ** Errors

    Modelled from the spec: the sentinel values [ErrMissingExchange],
    [ErrMissingKind] and [ErrMissingQueue] are declared outside
    [rabbus.go]; the subscribe interface "fails with a distinct sentinel
    condition for each of: missing exchange, missing kind, missing
    queue".  [ErrOpenState] and [ErrTooManyRequests] are the two errors of
    the circuit-breaker library; every error that comes back from the
    broker client is an [AmqpError]. *)
Inductive error : Type :=
| ErrMissingExchange
| ErrMissingKind
| ErrMissingQueue
| ErrOpenState
| ErrTooManyRequests
| AmqpError (reason : string).

#[global] Instance error_eq_dec : EqDecision error.
Proof. solve_decision. Defined.

(** ** Records of the package (lines 40-89) *)

Module Config.
Record t := mk {
    Dsn : string;
    Durable : bool;
    Attempts : Z;
    Sleep : Z;                      (* time.Duration, nanoseconds *)
    Interval : Z;
    Timeout : Z;
    Threshold : Z;                  (* uint32; documented in lines 55-57:
                                       when a threshold of failures has been
                                       reached, future calls to the broker
                                       will not run; default value 5 *)
    OnStateChange : option FuncRef  (* a Go func value; [None] is nil *)
  }.
Definition with_Threshold (c : t) (th : Z) : t :=
    mk (Dsn c) (Durable c) (Attempts c) (Sleep c) (Interval c) (Timeout c)
       th (OnStateChange c).
End Config.

Module Message.
Record t := mk {
    Exchange : string;
    Kind : string;
    Key : string;
    Payload : list Byte.byte;
    DeliveryMode : Z;               (* uint8 *)
    ContentType : string
  }.
Definition with_ContentType (m : t) (ct : string) : t :=
    mk (Exchange m) (Kind m) (Key m) (Payload m) (DeliveryMode m) ct.
Definition with_DeliveryMode (m : t) (dm : Z) : t :=
    mk (Exchange m) (Kind m) (Key m) (Payload m) dm (ContentType m).
End Message.

Module ListenConfig.
Record t := mk {
    Exchange : string;
    Kind : string;
    Key : string;
    Queue : string
  }.
End ListenConfig.

(** The part of [amqp.Publishing] that [produce] fills in. *)
Module Publishing.
Record t := mk {
    ContentType : string;
    ContentEncoding : string;
    DeliveryMode : Z;
    Timestamp : Z;
    Body : list Byte.byte
  }.
End Publishing.

(** One broker delivery ([amqp.Delivery]) and the stream a consumer
    receives them on: the deliveries the broker hands over, in order, and
    whether the broker closes the stream after the last of them. *)
Record AmqpDelivery := mkDelivery {
  DeliveryTag : Z;
  RoutingKey : string;
  DeliveryBody : list Byte.byte
}.

Record Stream := mkStream {
  deliveries : list AmqpDelivery;
  closes : bool
}.

(** ** The environment *)

(** A call that leaves the package, with the answer it got.  The
    arguments that [rabbus.go] fixes are not repeated: exchange and queue
    declares pass autoDelete, internal/exclusive and noWait false and nil
    arguments, binds pass noWait false, consumes pass the empty consumer
    tag with autoAck, exclusive, noLocal and noWait false, publishes pass
    mandatory and immediate false. *)
Inductive Event : Type :=
| EvDial (dsn : string) (res : string + Handle)
| EvChannel (conn : Handle) (res : string + Handle)
| EvExchangeDeclare (ch : Handle) (name kind : string) (durable : bool)
    (res : option string)
| EvQueueDeclare (ch : Handle) (name : string) (durable : bool)
    (res : string + string)
| EvQueueBind (ch : Handle) (queue key exchange : string)
    (res : option string)
| EvConsume (ch : Handle) (queue : string) (res : string + Stream)
| EvPublish (ch : Handle) (exchange key : string) (p : Publishing.t)
    (res : option string)
| EvChannelClose (ch : Handle)
| EvConnectionClose (conn : Handle)
| EvRetryDo (attempts sleep : Z)
| EvSleep (d : Z)
| EvOnStateChange (f : FuncRef) (name from to : string).

(** The broker as an oracle: the answer to a call, given everything that
    happened before it. *)
Record Broker := mkBroker {
  onDial : list Event → string → string + Handle;
  onChannel : list Event → Handle → string + Handle;
  onExchangeDeclare :
    list Event → Handle → string → string → bool → option string;
  onQueueDeclare : list Event → Handle → string → bool → string + string;
  onQueueBind :
    list Event → Handle → string → string → string → option string;
  onConsume : list Event → Handle → string → string + Stream;
  onPublish :
    list Event → Handle → string → string → Publishing.t → option string
}.

Record World := mkWorld {
  trace : list Event;
  clock : Z                          (* time.Now(), nanoseconds *)
}.

(** ** Computations: state passing over the world, with Go panics *)

Inductive Res (A : Type) : Type :=
| Ok (a : A)
| Panic (msg : string).
Arguments Ok {A} a.
Arguments Panic {A} msg.

Definition M (A : Type) : Type := World → Res (A * World).

Definition ret {A} (a : A) : M A := λ w, Ok (a, w).

Definition bind {A B} (c : M A) (k : A → M B) : M B :=
  λ w, match c w with
       | Ok (a, w') => k a w'
       | Panic msg => Panic msg
       end.

Definition panic {A} (msg : string) : M A := λ _, Panic msg.

Notation "x <~ c ;; k" := (bind c (λ x, k))
  (at level 20, c at level 99, k at level 200, only parsing).
Notation "' pat <~ c ;; k" := (bind c (λ x, match x with pat => k end))
  (at level 20, pat pattern, c at level 99, k at level 200, only parsing).

Definition log (e : Event) : M unit :=
  λ w, Ok (tt, mkWorld (trace w ++ [e]) (clock w)).

Definition getTrace : M (list Event) := λ w, Ok (trace w, w).

(** [time.Now()] and [time.Sleep(d)]. *)
Definition timeNow : M Z := λ w, Ok (clock w, w).

Definition timeSleep (d : Z) : M unit :=
  λ w, Ok (tt, mkWorld (trace w ++ [EvSleep d]) (clock w + Z.max 0 d)).

(** Time passing between two steps of the program. *)
Definition elapse (d : Z) : M unit :=
  λ w, Ok (tt, mkWorld (trace w) (clock w + Z.max 0 d)).

Definition toError (r : option string) : option error := AmqpError <$> r.

Definition toResult {A} (r : string + A) : error + A :=
  match r with inl s => inl (AmqpError s) | inr a => inr a end.

(** ** Go channels

    [buf] holds the values sent and not yet received, oldest first; [cap]
    is the capacity given to [make].  The three channels of the façade
    are unbuffered ([cap = 0]): a send on them is a hand-over to the
    receiver, and [buf] then lists the values handed over and still to be
    picked up by the other side. *)
Record Chan (A : Type) := mkChan {
  buf : list A;
  cap : nat;
  closed : bool
}.
Arguments mkChan {A} buf cap closed.
Arguments buf {A} c.
Arguments cap {A} c.
Arguments closed {A} c.

Definition makeChan {A} (n : nat) : Chan A := mkChan [] n false.

Definition chanSend {A} (x : A) (c : Chan A) : Chan A :=
  mkChan (buf c ++ [x]) (cap c) (closed c).

Definition chanDrain {A} (c : Chan A) : Chan A :=
  mkChan [] (cap c) (closed c).

(** ** The circuit breaker

    Modelled from the spec: the breaker is the imported library
    [github.com/sony/gobreaker], whose source is not part of
    [rabbus.go].  Section 4.3: three states; closed lets calls through
    and counts failures; open fails calls immediately without running
    the wrapped operation; half-open allows a single trial call, whose
    success closes the breaker and whose failure re-opens it; closed goes
    to open when the [ReadyToTrip] predicate of the settings holds after
    a failure; open goes to half-open once the open-state timeout
    (60 seconds when unset) has elapsed; the closed-state counters are
    cleared on the clearing interval when it is non-zero; every
    transition calls the [OnStateChange] function of the settings with
    the breaker's name, the prior and the new state. *)

Definition wrap32 (x : Z) : Z := x mod 2 ^ 32.
Definition wrap64 (x : Z) : Z := x mod 2 ^ 64.

Definition second : Z := 1000000000.
Definition defaultTimeout : Z := 60 * second.

Inductive BState : Type := StateClosed | StateHalfOpen | StateOpen.

#[global] Instance BState_eq_dec : EqDecision BState.
Proof. solve_decision. Defined.

Definition State_String (s : BState) : string :=
  match s with
  | StateClosed => "closed"
  | StateHalfOpen => "half-open"
  | StateOpen => "open"
  end.

Record Counts := mkCounts {
  Requests : Z;
  TotalSuccesses : Z;
  TotalFailures : Z;
  ConsecutiveSuccesses : Z;
  ConsecutiveFailures : Z
}.

Definition counts_onRequest (c : Counts) : Counts :=
  mkCounts (wrap32 (Requests c + 1)) (TotalSuccesses c) (TotalFailures c)
           (ConsecutiveSuccesses c) (ConsecutiveFailures c).

Definition counts_onSuccess (c : Counts) : Counts :=
  mkCounts (Requests c) (wrap32 (TotalSuccesses c + 1)) (TotalFailures c)
           (wrap32 (ConsecutiveSuccesses c + 1)) 0.

Definition counts_onFailure (c : Counts) : Counts :=
  mkCounts (Requests c) (TotalSuccesses c) (wrap32 (TotalFailures c + 1))
           0 (wrap32 (ConsecutiveFailures c + 1)).

Definition counts_clear : Counts := mkCounts 0 0 0 0 0.

Record Settings := mkSettings {
  Name : string;
  MaxRequests : Z;
  sInterval : Z;
  sTimeout : Z;
  ReadyToTrip : option (Counts → bool);
  sOnStateChange : option (string → BState → BState → M unit)
}.

Record CircuitBreaker := mkCB {
  name : string;
  maxRequests : Z;
  interval : Z;
  timeout : Z;
  readyToTrip : Counts → bool;
  onStateChange : option (string → BState → BState → M unit);
  state : BState;
  generation : Z;                    (* uint64 *)
  counts : Counts;
  expiry : option Z                  (* [None] is the zero time *)
}.

Definition cb_update (cb : CircuitBreaker) (st : BState) (g : Z)
    (c : Counts) (e : option Z) : CircuitBreaker :=
  mkCB (name cb) (maxRequests cb) (interval cb) (timeout cb)
       (readyToTrip cb) (onStateChange cb) st g c e.

Definition cb_setCounts (cb : CircuitBreaker) (c : Counts) : CircuitBreaker :=
  cb_update cb (state cb) (generation cb) c (expiry cb).

Definition toNewGeneration (cb : CircuitBreaker) (now : Z) : CircuitBreaker :=
  cb_update cb (state cb) (wrap64 (generation cb + 1)) counts_clear
    (match state cb with
     | StateClosed =>
         if interval cb =? 0 then None else Some (now + interval cb)
     | StateOpen => Some (now + timeout cb)
     | StateHalfOpen => None
     end).

Definition setState (cb : CircuitBreaker) (st : BState) (now : Z)
    : M CircuitBreaker :=
  if decide (state cb = st) then ret cb
  else
    let prev := state cb in
    let cb1 :=
      toNewGeneration
        (cb_update cb st (generation cb) (counts cb) (expiry cb)) now in
    match onStateChange cb with
    | None => ret cb1
    | Some f => _ <~ f (name cb) prev st ;; ret cb1
    end.

Definition expired (e : option Z) (now : Z) : bool :=
  match e with
  | None => true
  | Some t => t <? now
  end.

Definition currentState (cb : CircuitBreaker) (now : Z) : M CircuitBreaker :=
  match state cb with
  | StateClosed =>
      match expiry cb with
      | Some t => if t <? now then ret (toNewGeneration cb now) else ret cb
      | None => ret cb
      end
  | StateOpen =>
      if expired (expiry cb) now then setState cb StateHalfOpen now
      else ret cb
  | StateHalfOpen => ret cb
  end.

Definition beforeRequest (cb : CircuitBreaker)
    : M ((error + Z) * CircuitBreaker) :=
  now <~ timeNow ;;
  cb1 <~ currentState cb now ;;
  match state cb1 with
  | StateOpen => ret (inl ErrOpenState, cb1)
  | StateHalfOpen =>
      if maxRequests cb1 <=? Requests (counts cb1)
      then ret (inl ErrTooManyRequests, cb1)
      else ret (inr (generation cb1),
                cb_setCounts cb1 (counts_onRequest (counts cb1)))
  | StateClosed =>
      ret (inr (generation cb1),
           cb_setCounts cb1 (counts_onRequest (counts cb1)))
  end.

Definition onSuccess (cb : CircuitBreaker) (st : BState) (now : Z)
    : M CircuitBreaker :=
  match st with
  | StateClosed => ret (cb_setCounts cb (counts_onSuccess (counts cb)))
  | StateHalfOpen =>
      let cb1 := cb_setCounts cb (counts_onSuccess (counts cb)) in
      if maxRequests cb1 <=? ConsecutiveSuccesses (counts cb1)
      then setState cb1 StateClosed now
      else ret cb1
  | StateOpen => ret cb
  end.

Definition onFailure (cb : CircuitBreaker) (st : BState) (now : Z)
    : M CircuitBreaker :=
  match st with
  | StateClosed =>
      let cb1 := cb_setCounts cb (counts_onFailure (counts cb)) in
      if readyToTrip cb1 (counts cb1) then setState cb1 StateOpen now
      else ret cb1
  | StateHalfOpen => setState cb StateOpen now
  | StateOpen => ret cb
  end.

Definition afterRequest (cb : CircuitBreaker) (before : Z) (success : bool)
    : M CircuitBreaker :=
  now <~ timeNow ;;
  cb1 <~ currentState cb now ;;
  if decide (generation cb1 = before) then
    if success then onSuccess cb1 (state cb1) now
    else onFailure cb1 (state cb1) now
  else ret cb1.

Definition Execute (cb : CircuitBreaker) (req : M (option error))
    : M (option error * CircuitBreaker) :=
  '(res, cb1) <~ beforeRequest cb ;;
  match res with
  | inl e => ret (Some e, cb1)
  | inr gen =>
      err <~ req ;;
      cb2 <~ afterRequest cb1 gen (bool_decide (err = None)) ;;
      ret (err, cb2)
  end.

Definition defaultReadyToTrip (c : Counts) : bool :=
  5 <? ConsecutiveFailures c.

Definition NewCircuitBreaker (st : Settings) : M CircuitBreaker :=
  now <~ timeNow ;;
  ret (toNewGeneration
         (mkCB (Name st)
               (if MaxRequests st =? 0 then 1 else MaxRequests st)
               (sInterval st)
               (if sTimeout st =? 0 then defaultTimeout else sTimeout st)
               (default defaultReadyToTrip (ReadyToTrip st))
               (sOnStateChange st)
               StateClosed 0 counts_clear None)
         now).

(** ** The retry helper

    Modelled from the spec: [retry.Do] is the imported library
    [github.com/rafaeljesus/retry-go].  Section 4.4: attempt the call; on
    failure, retry up to the configured attempt count, sleeping the fixed
    duration between attempts; return the last error if all attempts
    fail, or success on the first succeeding attempt.  The first call is
    always made, so [attempts] tries are made when [attempts >= 1] and
    one try otherwise. *)

Fixpoint retryLoop (n : nat) (fn : M (option error)) (sleep : Z)
    : M (option error) :=
  e <~ fn ;;
  match e with
  | None => ret None
  | Some err =>
      match n with
      | O => ret (Some err)
      | S n' => _ <~ timeSleep sleep ;; retryLoop n' fn sleep
      end
  end.

Definition retryDo (fn : M (option error)) (attempts sleep : Z)
    : M (option error) :=
  _ <~ log (EvRetryDo attempts sleep) ;;
  retryLoop (Z.to_nat (attempts - 1)) fn sleep.

(** ** The façade (lines 96-106)

    The embedded [sync.RWMutex] is only taken by [notifyClose]; the steps
    below are atomic, so it carries no state here. *)
Record rabbus := mkRabbus {
  conn : Handle;
  ch : Handle;
  breaker : CircuitBreaker;
  emit : Chan Message.t;
  emitErr : Chan error;
  emitOk : Chan unit;
  config : Config.t;
  exDeclared : gset string
}.

Definition with_handles (r : rabbus) (cn c : Handle) : rabbus :=
  mkRabbus cn c (breaker r) (emit r) (emitErr r) (emitOk r) (config r)
           (exDeclared r).

Definition with_breaker (r : rabbus) (cb : CircuitBreaker) : rabbus :=
  mkRabbus (conn r) (ch r) cb (emit r) (emitErr r) (emitOk r) (config r)
           (exDeclared r).

Definition with_emit (r : rabbus) (c : Chan Message.t) : rabbus :=
  mkRabbus (conn r) (ch r) (breaker r) c (emitErr r) (emitOk r) (config r)
           (exDeclared r).

Definition with_emitErr (r : rabbus) (c : Chan error) : rabbus :=
  mkRabbus (conn r) (ch r) (breaker r) (emit r) c (emitOk r) (config r)
           (exDeclared r).

Definition with_emitOk (r : rabbus) (c : Chan unit) : rabbus :=
  mkRabbus (conn r) (ch r) (breaker r) (emit r) (emitErr r) c (config r)
           (exDeclared r).

Definition with_exDeclared (r : rabbus) (s : gset string) : rabbus :=
  mkRabbus (conn r) (ch r) (breaker r) (emit r) (emitErr r) (emitOk r)
           (config r) s.

(** The call [c.OnStateChange(name, from, to)] of line 134: calling a nil
    func value panics. *)
Definition callOnStateChange (c : Config.t) (nm from to : string) : M unit :=
  match Config.OnStateChange c with
  | None => panic "invalid memory address or nil pointer dereference"
  | Some f => log (EvOnStateChange f nm from to)
  end.

(** The closure of lines 133-135, handed to the breaker as its
    [OnStateChange] setting. *)
Definition observer (c : Config.t) (nm : string) (from to : BState)
    : M unit :=
  callOnStateChange c nm (State_String from) (State_String to).

(** The closure of lines 130-132. *)
Definition tripsAbove (c : Config.t) (k : Counts) : bool :=
  Config.Threshold c <? ConsecutiveFailures k.

(** Lines 237-243. *)
Definition applyDefaults (m : Message.t) : Message.t :=
  let m1 :=
    if decide (Message.ContentType m = "")
    then Message.with_ContentType m ContentTypeJSON else m in
  if Message.DeliveryMode m1 =? 0
  then Message.with_DeliveryMode m1 Persistent else m1.

Section WithBroker.

Variable broker : Broker.

(** *** The broker client's calls *)

Definition amqpDial (dsn : string) : M (error + Handle) :=
  t <~ getTrace ;;
  let res := onDial broker t dsn in
  _ <~ log (EvDial dsn res) ;; ret (toResult res).

Definition connChannel (conn : Handle) : M (error + Handle) :=
  t <~ getTrace ;;
  let res := onChannel broker t conn in
  _ <~ log (EvChannel conn res) ;; ret (toResult res).

Definition ExchangeDeclare (ch : Handle) (name kind : string)
    (durable : bool) : M (option error) :=
  t <~ getTrace ;;
  let res := onExchangeDeclare broker t ch name kind durable in
  _ <~ log (EvExchangeDeclare ch name kind durable res) ;; ret (toError res).

Definition QueueDeclare (ch : Handle) (name : string)
    (durable : bool) : M (error + string) :=
  t <~ getTrace ;;
  let res := onQueueDeclare broker t ch name durable in
  _ <~ log (EvQueueDeclare ch name durable res) ;; ret (toResult res).

Definition QueueBind (ch : Handle) (queue key exchange : string)
    : M (option error) :=
  t <~ getTrace ;;
  let res := onQueueBind broker t ch queue key exchange in
  _ <~ log (EvQueueBind ch queue key exchange res) ;; ret (toError res).

Definition Consume (ch : Handle) (queue : string) : M (error + Stream) :=
  t <~ getTrace ;;
  let res := onConsume broker t ch queue in
  _ <~ log (EvConsume ch queue res) ;; ret (toResult res).

Definition Publish (ch : Handle) (exchange key : string)
    (p : Publishing.t) : M (option error) :=
  t <~ getTrace ;;
  let res := onPublish broker t ch exchange key p in
  _ <~ log (EvPublish ch exchange key p res) ;; ret (toError res).

Definition channelClose (ch : Handle) : M unit := log (EvChannelClose ch).
Definition connectionClose (conn : Handle) : M unit :=
  log (EvConnectionClose conn).

(** *** NewRabbus (lines 111-155)

    The two goroutines started at the end, [register] and
    [notifyClose], are run by the scheduler [run] below. *)
Definition NewRabbus (c : Config.t) : M (error + rabbus) :=
  rc <~ amqpDial (Config.Dsn c) ;;
  match rc with
  | inl err => ret (inl err)
  | inr cn =>
      rch <~ connChannel cn ;;
      match rch with
      | inl err => ret (inl err)
      | inr chn =>
          let c :=
            if Config.Threshold c =? 0 then Config.with_Threshold c 5
            else c in
          let st :=
            mkSettings "Rabbus" 0 (Config.Interval c) (Config.Timeout c)
              (Some (tripsAbove c))
              (Some (observer c)) in
          cb <~ NewCircuitBreaker st ;;
          ret (inr (mkRabbus cn chn cb (makeChan 0) (makeChan 0)
                             (makeChan 0) c ∅))
      end
  end.

(** *** produce (lines 228-261) *)

(** Lines 229-235: the declaration cache.  The result is the declare
    error, if any, and the façade with its cache updated. *)
Definition ensureExchange (m : Message.t) (r : rabbus)
    : M (option error * rabbus) :=
  if decide (Message.Exchange m ∈ exDeclared r) then ret (None, r)
  else
    e <~ ExchangeDeclare (ch r) (Message.Exchange m) (Message.Kind m)
                         (Config.Durable (config r)) ;;
    match e with
    | Some err => ret (Some err, r)
    | None =>
        ret (None,
             with_exDeclared r ({[Message.Exchange m]} ∪ exDeclared r))
    end.

(** Lines 247-253: one publish attempt; the timestamp is read at the
    attempt. *)
Definition publishOnce (m : Message.t) (r : rabbus) : M (option error) :=
  now <~ timeNow ;;
  Publish (ch r) (Message.Exchange m) (Message.Key m)
    (Publishing.mk (Message.ContentType m) "UTF-8"
                   (Message.DeliveryMode m) now (Message.Payload m)).

(** Lines 245-260: the retried publish under the breaker, and the
    outcome sent on one of the two output channels. *)
Definition publishGuarded (m : Message.t) (r : rabbus) : M rabbus :=
  '(err, cb) <~ Execute (breaker r)
                  (retryDo (publishOnce m r)
                           (Config.Attempts (config r))
                           (Config.Sleep (config r))) ;;
  let r1 := with_breaker r cb in
  match err with
  | Some e => ret (with_emitErr r1 (chanSend e (emitErr r1)))
  | None => ret (with_emitOk r1 (chanSend tt (emitOk r1)))
  end.

Definition produce (m : Message.t) (r : rabbus) : M rabbus :=
  '(e, r1) <~ ensureExchange m r ;;
  match e with
  | Some err => ret (with_emitErr r1 (chanSend err (emitErr r1)))
  | None => publishGuarded (applyDefaults m) r1
  end.

(** The value of the parameter [m] of [produce], which the body
    reassigns, at three places of the body: at the call of
    [ExchangeDeclare] (line 230), after the two defaulting statements
    (lines 237-243), and at the call of [breaker.Execute] (line 245). *)
Inductive Point :=
| AtDeclare (m : Message.t)
| AtDefaults (m : Message.t)
| AtExecute (m : Message.t).

(** [produce] statement by statement, returning with the façade the
    places its run went through, in order. *)
Definition produceAt (m : Message.t) (r : rabbus)
    : M (rabbus * list Point) :=
  (* lines 229-235 *)
  '(e, r1, pts) <~
    (if decide (Message.Exchange m ∈ exDeclared r) then ret (None, r, [])
     else
       e <~ ExchangeDeclare (ch r) (Message.Exchange m) (Message.Kind m)
                            (Config.Durable (config r)) ;;
       match e with
       | Some err => ret (Some err, r, [AtDeclare m])
       | None =>
           ret (None,
                with_exDeclared r ({[Message.Exchange m]} ∪ exDeclared r),
                [AtDeclare m])
       end) ;;
  match e with
  | Some err => ret (with_emitErr r1 (chanSend err (emitErr r1)), pts)
  | None =>
      (* lines 237-243 *)
      let m1 := applyDefaults m in
      (* lines 245-260 *)
      r2 <~ publishGuarded m1 r1 ;;
      ret (r2, pts ++ [AtDefaults m1; AtExecute m1])
  end.

(** *** register (lines 222-226): the messages waiting on [emit] are
    taken one by one, in order. *)
Fixpoint registerLoop (ms : list Message.t) (r : rabbus) : M rabbus :=
  match ms with
  | [] => ret r
  | m :: ms' => r1 <~ produce m r ;; registerLoop ms' r1
  end.

Definition register (r : rabbus) : M rabbus :=
  registerLoop (buf (emit r)) (with_emit r (chanDrain (emit r))).

(** *** Close (lines 217-220) *)
Definition Close (r : rabbus) : M rabbus :=
  _ <~ channelClose (ch r) ;;
  _ <~ connectionClose (conn r) ;;
  ret r.

(** *** notifyClose (lines 263-288)

    [note] is what arrives on the close notification: [Some reason] for
    an error, [None] for a graceful shutdown.  The loop has no bound in
    the source; [fuel] bounds the number of dial rounds looked at, and
    the result is [None] when the loop is still running after them. *)
Fixpoint reconnectLoop (fuel : nat) (dsn : string) (r : rabbus)
    : M (option rabbus) :=
  match fuel with
  | O => ret None
  | S fuel' =>
      _ <~ timeSleep (2 * second) ;;
      rc <~ amqpDial dsn ;;
      match rc with
      | inl _ => reconnectLoop fuel' dsn r
      | inr cn =>
          rch <~ connChannel cn ;;
          match rch with
          | inl _ => reconnectLoop fuel' dsn r
          | inr chn => ret (Some (with_handles r cn chn))
          end
      end
  end.

Definition notifyClose (fuel : nat) (dsn : string) (note : option string)
    (r : rabbus) : M (option rabbus) :=
  match note with
  | None => ret (Some r)
  | Some _ => reconnectLoop fuel dsn r
  end.

(** *** The goroutines together

    One step of the program: the application sends a message on [emit]
    and the producer goroutine takes it; the connection is lost and the
    watcher reconnects; the application calls [Close]; time passes. *)
Inductive Op : Type :=
| OpEmit (m : Message.t)
| OpConnectionLost (reason : string) (fuel : nat)
| OpClose
| OpElapse (d : Z).

Definition step (o : Op) (r : rabbus) : M rabbus :=
  match o with
  | OpEmit m => register (with_emit r (chanSend m (emit r)))
  | OpConnectionLost reason fuel =>
      r' <~ notifyClose fuel (Config.Dsn (config r)) (Some reason) r ;;
      ret (default r r')
  | OpClose => Close r
  | OpElapse d => _ <~ elapse d ;; ret r
  end.

Fixpoint run (ops : list Op) (r : rabbus) : M rabbus :=
  match ops with
  | [] => ret r
  | o :: ops' => r1 <~ step o r ;; run ops' r1
  end.

(** *** Listen (lines 175-214) *)
Section Relay.

(** [ConsumerMessage] and [newConsumerMessage] are declared in
    another file of the package. *)
Variable ConsumerMessage : Type.
Variable newConsumerMessage : AmqpDelivery → ConsumerMessage.

(** The goroutine of lines 207-211 with the two channels it works
    on: [pending] are the deliveries still to come on [msgs],
    [msgsCloses] whether [msgs] is closed after them, [returned] whether
    the goroutine has returned. *)
Record Relay := mkRelay {
  pending : list AmqpDelivery;
  msgsCloses : bool;
  messages : Chan ConsumerMessage;
  returned : bool
}.

Definition Listen (c : ListenConfig.t) (r : rabbus)
    : M (error + Relay) :=
  if decide (ListenConfig.Exchange c = "") then
    ret (inl ErrMissingExchange)
  else if decide (ListenConfig.Kind c = "") then
    ret (inl ErrMissingKind)
  else if decide (ListenConfig.Queue c = "") then
    ret (inl ErrMissingQueue)
  else
    e <~ ExchangeDeclare (ch r) (ListenConfig.Exchange c)
           (ListenConfig.Kind c) (Config.Durable (config r)) ;;
    match e with
    | Some err => ret (inl err)
    | None =>
        q <~ QueueDeclare (ch r) (ListenConfig.Queue c)
               (Config.Durable (config r)) ;;
        match q with
        | inl err => ret (inl err)
        | inr qName =>
            e <~ QueueBind (ch r) qName (ListenConfig.Key c)
                   (ListenConfig.Exchange c) ;;
            match e with
            | Some err => ret (inl err)
            | None =>
                ms <~ Consume (ch r) qName ;;
                match ms with
                | inl err => ret (inl err)
                | inr st =>
                    ret (inr (mkRelay (deliveries st) (closes st)
                                      (makeChan 256) false))
                end
            end
        end
    end.

(** One turn of the relay goroutine: [for m := range msgs] takes the
    next delivery and sends its wrapping on [messages], which blocks
    while the buffer is full; when [msgs] is closed and empty the
    loop ends and the goroutine returns.  [None]: the goroutine
    cannot move. *)
Definition relayStep (s : Relay) : option Relay :=
  if returned s then None
  else
    match pending s with
    | m :: rest =>
        if decide (length (buf (messages s)) < cap (messages s))%nat
        then Some (mkRelay rest (msgsCloses s)
                     (chanSend (newConsumerMessage m) (messages s))
                     false)
        else None
    | [] =>
        if msgsCloses s
        then Some (mkRelay [] true (messages s) true)
        else None
    end.

(** The application receiving from [messages]: the value received and
    the relay afterwards. *)
Definition receive (s : Relay) : option (ConsumerMessage * Relay) :=
  match buf (messages s) with
  | x :: rest =>
      Some (x, mkRelay (pending s) (msgsCloses s)
                 (mkChan rest (cap (messages s)) (closed (messages s)))
                 (returned s))
  | [] => None
  end.

(** A schedule of the two sides; a side that cannot move is skipped.
    The result is the relay and what the application has received,
    oldest first. *)
Inductive Turn : Type := TurnRelay | TurnReceive.

Fixpoint runRelay (sched : list Turn) (s : Relay)
    (got : list ConsumerMessage) : Relay * list ConsumerMessage :=
  match sched with
  | [] => (s, got)
  | TurnRelay :: sched' =>
      runRelay sched' (default s (relayStep s)) got
  | TurnReceive :: sched' =>
      match receive s with
      | Some (x, s') => runRelay sched' s' (got ++ [x])
      | None => runRelay sched' s got
      end
  end.

End Relay.

End WithBroker.

Arguments Relay : clear implicits.
Arguments mkRelay {ConsumerMessage} pending msgsCloses messages returned.
Arguments pending {ConsumerMessage} r.
Arguments msgsCloses {ConsumerMessage} r.
Arguments messages {ConsumerMessage} r.
Arguments returned {ConsumerMessage} r.
Arguments Listen broker {ConsumerMessage} c r _.
Arguments relayStep {ConsumerMessage} newConsumerMessage s.
Arguments receive {ConsumerMessage} s.
Arguments runRelay {ConsumerMessage} newConsumerMessage sched s got.

(** The relay goroutine at the grain of its two blocking operations.
    [for m := range msgs] first receives a delivery, which takes it off
    the stream (line 208), and then sends its wrapping on [messages]
    (line 209); a send on a full buffer blocks with the delivery in
    hand.  [onStream] are the deliveries not yet received from [msgs],
    [inHand] the delivery received and not yet sent. *)
Record RelayAt (CM : Type) := mkRelayAt {
  onStream : list AmqpDelivery;
  streamCloses : bool;
  inHand : option AmqpDelivery;
  output : Chan CM;
  finished : bool
}.
Arguments mkRelayAt {CM} onStream streamCloses inHand output finished.
Arguments onStream {CM} r.
Arguments streamCloses {CM} r.
Arguments inHand {CM} r.
Arguments output {CM} r.
Arguments finished {CM} r.

(** The goroutine as [Listen] starts it: nothing in hand. *)
Definition relayStart {CM} (s : Relay CM) : RelayAt CM :=
  mkRelayAt (pending s) (msgsCloses s) None (messages s) (returned s).

(** One blocking operation of the goroutine.  [None]: it is blocked, in
    the receive on an empty open stream or in the send on a full
    buffer, or it has returned. *)
Definition relayMove {CM} (newCM : AmqpDelivery → CM) (s : RelayAt CM)
    : option (RelayAt CM) :=
  if finished s then None
  else
    match inHand s with
    | Some m =>
        if decide (length (buf (output s)) < cap (output s))%nat
        then Some (mkRelayAt (onStream s) (streamCloses s) None
                     (chanSend (newCM m) (output s)) false)
        else None
    | None =>
        match onStream s with
        | m :: rest =>
            Some (mkRelayAt rest (streamCloses s) (Some m) (output s) false)
        | [] =>
            if streamCloses s
            then Some (mkRelayAt [] true None (output s) true)
            else None
        end
    end.

(** The goroutine scheduled [k] times while nobody receives. *)
Fixpoint relayMoves {CM} (newCM : AmqpDelivery → CM) (k : nat)
    (s : RelayAt CM) : RelayAt CM :=
  match k with
  | O => s
  | S k' => relayMoves newCM k' (default s (relayMove newCM s))
  end.

(** The relay of [relayStep] that a state of the finer grain stands
    for: the delivery in hand counts as still to come. *)
Definition relayOf {CM} (s : RelayAt CM) : Relay CM :=
  mkRelay (option_list (inHand s) ++ onStream s) (streamCloses s)
          (output s) (finished s).

(** ** Auxiliary notions used in the statements *)

(** The world after a call that logs one event. *)
Definition logged (w : World) (e : Event) : World :=
  mkWorld (trace w ++ [e]) (clock w).

Arguments logged : simpl never.

(** The three sentinel errors of the subscribe interface. *)
Definition isSentinel (e : error) : bool :=
  match e with
  | ErrMissingExchange | ErrMissingKind | ErrMissingQueue => true
  | _ => false
  end.

(** A computation started in [w] ends in a state satisfying [Q], or
    panics and then [E] holds. *)
Definition wp {A} (c : M A) (Q : A → World → Prop) (E : Prop) (w : World)
    : Prop :=
  match c w with
  | Ok (a, w') => Q a w'
  | Panic _ => E
  end.

(** [w'] extends [w] by events that all satisfy [P]. *)
Definition ext (P : Event → Prop) (w w' : World) : Prop :=
  ∃ d, trace w' = trace w ++ d ∧ Forall P d.

Definition isStateChange (e : Event) : Prop :=
  match e with
  | EvOnStateChange _ _ _ _ => True
  | _ => False
  end.

(** The settings of a breaker, which no operation changes. *)
Definition sameSettings (cb cb' : CircuitBreaker) : Prop :=
  name cb' = name cb ∧ maxRequests cb' = maxRequests cb ∧
  interval cb' = interval cb ∧ timeout cb' = timeout cb ∧
  readyToTrip cb' = readyToTrip cb ∧ onStateChange cb' = onStateChange cb.

(** What every operation of the breaker guarantees when its observer
    is the closure of [NewRabbus] over the configuration [c]: the
    settings stay, only observer calls are logged, and a change of state
    means the configured callback was there to be called. *)
Definition cbPost (c : Config.t) (P : Event → Prop) (cb : CircuitBreaker)
    (w : World) (cb' : CircuitBreaker) (w' : World) : Prop :=
  sameSettings cb cb' ∧ ext P w w' ∧
  (state cb' ≠ state cb → Config.OnStateChange c ≠ None).

(** The events of the retried publish of [m] on channel [chn]: calls of
    the retry helper, sleeps between attempts, observer calls of the
    breaker, and publishes that carry the fields of [m]. *)
Definition guardedEvent (m : Message.t) (chn : Handle) (e : Event) : Prop :=
  match e with
  | EvRetryDo _ _ | EvSleep _ | EvOnStateChange _ _ _ _ => True
  | EvPublish chn' ex key p _ =>
      chn' = chn ∧ ex = Message.Exchange m ∧ key = Message.Key m ∧
      Publishing.ContentType p = Message.ContentType m ∧
      Publishing.ContentEncoding p = "UTF-8" ∧
      Publishing.DeliveryMode p = Message.DeliveryMode m ∧
      Publishing.Body p = Message.Payload m
  | _ => False
  end.

(** Exactly one value was sent, on exactly one of the two output
    channels. *)
Definition oneOutcome (r r' : rabbus) : Prop :=
  (∃ e, emitErr r' = chanSend e (emitErr r) ∧ emitOk r' = emitOk r) ∨
  (emitErr r' = emitErr r ∧ emitOk r' = chanSend tt (emitOk r)).

(** What the producer pipeline never touches. *)
Definition sameFacade (r r' : rabbus) : Prop :=
  conn r' = conn r ∧ ch r' = ch r ∧ emit r' = emit r ∧
  config r' = config r ∧
  closed (emitErr r') = closed (emitErr r) ∧
  closed (emitOk r') = closed (emitOk r) ∧
  sameSettings (breaker r) (breaker r').

(** The answer of the broker to the declare that [produce m] makes in
    [w], if it makes one. *)
Definition declareAnswer (broker : Broker) (m : Message.t) (r : rabbus)
    (w : World) : option string :=
  onExchangeDeclare broker (trace w) (ch r) (Message.Exchange m)
    (Message.Kind m) (Config.Durable (config r)).

Definition declareEvents (broker : Broker) (m : Message.t) (r : rabbus)
    (w : World) : list Event :=
  if decide (Message.Exchange m ∈ exDeclared r) then []
  else [EvExchangeDeclare (ch r) (Message.Exchange m) (Message.Kind m)
          (Config.Durable (config r)) (declareAnswer broker m r w)].

(** What [produce m] guarantees when it returns. *)
Definition producePost (broker : Broker) (m : Message.t) (r : rabbus)
    (w : World) (r' : rabbus) (w' : World) : Prop :=
  sameFacade r r' ∧ oneOutcome r r' ∧
  (state (breaker r') ≠ state (breaker r) →
   Config.OnStateChange (config r) ≠ None) ∧
  if decide (Message.Exchange m ∈ exDeclared r) then
    exDeclared r' = exDeclared r ∧
    ext (guardedEvent (applyDefaults m) (ch r)) w w'
  else
    match declareAnswer broker m r w with
    | Some reason =>
        r' = with_emitErr r (chanSend (AmqpError reason) (emitErr r)) ∧
        w' = logged w (EvExchangeDeclare (ch r) (Message.Exchange m)
                         (Message.Kind m) (Config.Durable (config r))
                         (Some reason))
    | None =>
        exDeclared r' = {[Message.Exchange m]} ∪ exDeclared r ∧
        ext (guardedEvent (applyDefaults m) (ch r))
            (logged w (EvExchangeDeclare (ch r) (Message.Exchange m)
                         (Message.Kind m) (Config.Durable (config r)) None))
            w'
    end.

(** The number of outcomes sent so far on the two output channels. *)
Definition outcomes (r : rabbus) : nat :=
  (length (buf (emitErr r)) + length (buf (emitOk r)))%nat.

(** A publish that carries the defaulted content type and delivery mode
    of [m]. *)
Definition publishesDefaults (m : Message.t) (e : Event) : Prop :=
  match e with
  | EvPublish _ _ _ p _ =>
      Publishing.ContentType p
        = (if decide (Message.ContentType m = "") then ContentTypeJSON
           else Message.ContentType m) ∧
      Publishing.DeliveryMode p
        = (if Message.DeliveryMode m =? 0 then Persistent
           else Message.DeliveryMode m) ∧
      Publishing.ContentType p ≠ "" ∧ Publishing.DeliveryMode p ≠ 0
  | _ => True
  end.

(** Counting events of a trace. *)
Definition countIf (f : Event → bool) (t : list Event) : nat :=
  length (List.filter f t).

(** Exchange declares of the name [x], and those among them that the
    broker answered with success. *)
Definition isDeclareOf (x : string) (e : Event) : bool :=
  match e with
  | EvExchangeDeclare _ nm _ _ _ => bool_decide (nm = x)
  | _ => false
  end.

Definition isOkDeclareOf (x : string) (e : Event) : bool :=
  match e with
  | EvExchangeDeclare _ nm _ _ None => bool_decide (nm = x)
  | _ => false
  end.

Definition isRetryDo (e : Event) : bool :=
  match e with EvRetryDo _ _ => true | _ => false end.

Definition isPublish (e : Event) : bool :=
  match e with EvPublish _ _ _ _ _ => true | _ => false end.

(** Exchange declares of the name [x] made on the channel [chn]. *)
Definition isDeclareOn (chn : Handle) (x : string) (e : Event) : bool :=
  match e with
  | EvExchangeDeclare c nm _ _ _ =>
      bool_decide (c = chn) && bool_decide (nm = x)
  | _ => false
  end.

(** 1 while the name [x] is missing from the cache, 0 once it is in. *)
Definition missing (x : string) (r : rabbus) : nat :=
  if decide (x ∈ exDeclared r) then 0%nat else 1%nat.

(** Events that are not exchange declares. *)
Definition notDeclare (e : Event) : Prop :=
  match e with
  | EvExchangeDeclare _ _ _ _ _ => False
  | _ => True
  end.

(** A façade whose breaker carries the settings [NewRabbus] gave it. *)
Definition wired (r : rabbus) : Prop :=
  let c := config r in
  let cb := breaker r in
  name cb = "Rabbus" ∧ maxRequests cb = 1 ∧
  interval cb = Config.Interval c ∧
  timeout cb
    = (if Config.Timeout c =? 0 then defaultTimeout else Config.Timeout c) ∧
  readyToTrip cb = tripsAbove c ∧
  onStateChange cb = Some (observer c).

(** What a step of the program guarantees about the cache entry of [x]:
    the façade keeps its wiring and configuration, the cache only grows,
    a cached name sees no further declare, and a successful declare of
    [x] happens exactly when [x] enters the cache. *)
Definition cachePost (x : string) (r : rabbus) (w : World) (r' : rabbus)
    (w' : World) : Prop :=
  wired r' ∧ config r' = config r ∧ exDeclared r ⊆ exDeclared r' ∧
  (x ∈ exDeclared r →
   countIf (isDeclareOf x) (trace w') = countIf (isDeclareOf x) (trace w)) ∧
  (countIf (isOkDeclareOf x) (trace w') + missing x r'
   = countIf (isOkDeclareOf x) (trace w) + missing x r)%nat ∧
  (state (breaker r') ≠ state (breaker r) →
   Config.OnStateChange (config r) ≠ None).

(** A façade with configuration [c] and nothing waiting on [emit], whose
    breaker is closed with no clearing deadline and has counted [k]
    consecutive failures. *)
Definition closedWith (c : Config.t) (k : Z) (r : rabbus) : Prop :=
  wired r ∧ config r = c ∧ buf (emit r) = [] ∧
  state (breaker r) = StateClosed ∧ expiry (breaker r) = None ∧
  ConsecutiveFailures (counts (breaker r)) = k.

(** The same with the breaker open since the time of [w]. *)
Definition openSince (c : Config.t) (r : rabbus) (w : World) : Prop :=
  wired r ∧ config r = c ∧ buf (emit r) = [] ∧
  state (breaker r) = StateOpen ∧
  expiry (breaker r) = Some (clock w + timeout (breaker r)).

Definition isAmqpError (e : error) : Prop := ∃ reason, e = AmqpError reason.

(** [n] messages went through the retry helper and each ended in the
    error of the broker client on the error channel. *)
Definition failuresPost (r : rabbus) (w : World) (n : nat) (r' : rabbus)
    (w' : World) : Prop :=
  countIf isRetryDo (trace w') = (countIf isRetryDo (trace w) + n)%nat ∧
  emitOk r' = emitOk r ∧
  ∃ errs, buf (emitErr r') = buf (emitErr r) ++ errs ∧
          length errs = n ∧ Forall isAmqpError errs.

(** What the relay goroutine and the application maintain: nothing is
    lost, duplicated or reordered between what the application has
    received, what waits in the buffer and what is still to come; the
    buffer respects its capacity; the output channel is open; a relay
    that has returned had seen its input closed and empty. *)
Definition relayInv {CM : Type} (newCM : AmqpDelivery → CM)
    (all : list AmqpDelivery) (closes0 : bool) (s : Relay CM)
    (got : list CM) : Prop :=
  got ++ buf (messages s) ++ map newCM (pending s) = map newCM all ∧
  (length (buf (messages s)) ≤ cap (messages s))%nat ∧
  cap (messages s) = 256%nat ∧
  closed (messages s) = false ∧
  msgsCloses s = closes0 ∧
  (returned s = true → pending s = [] ∧ closes0 = true).

(** The schedule in which each delivery is relayed and at once received,
    and the relay then looks at its input once more. *)
Definition promptSchedule (n : nat) : list Turn :=
  concat (replicate n [TurnRelay; TurnReceive]) ++ [TurnRelay].

(** ** Concrete brokers and inputs *)

(** A broker that accepts everything; a dial or channel-open answers
    with a fresh handle (the number of calls made so far). *)
Definition brokerUp : Broker :=
  mkBroker
    (λ t _, inr (length t))
    (λ t _, inr (length t))
    (λ _ _ _ _ _, None)
    (λ _ _ q _, inr q)
    (λ _ _ _ _ _, None)
    (λ _ _ _, inr (mkStream [mkDelivery 1 "created" []] true))
    (λ _ _ _ _ _, None).

(** The same broker refusing every publish. *)
Definition brokerPublishDown : Broker :=
  mkBroker (onDial brokerUp) (onChannel brokerUp)
    (onExchangeDeclare brokerUp) (onQueueDeclare brokerUp)
    (onQueueBind brokerUp) (onConsume brokerUp)
    (λ _ _ _ _ _, Some "connection reset").

(** The same broker refusing every exchange declare. *)
Definition brokerDeclareDown : Broker :=
  mkBroker (onDial brokerUp) (onChannel brokerUp)
    (λ _ _ _ _ _, Some "access refused") (onQueueDeclare brokerUp)
    (onQueueBind brokerUp) (onConsume brokerUp)
    (onPublish brokerUp).

Definition world0 : World := mkWorld [] 0.

Definition ordersCreated : Message.t :=
  Message.mk "orders" "topic" "created" [] 0 "".

Definition configWith (threshold : Z) (cb : option FuncRef) : Config.t :=
  Config.mk "amqp://localhost" true 1 0 0 0 threshold cb.

(** A façade on connection 0 and channel 1 whose breaker has no
    observer. *)
Definition idleRabbus : rabbus :=
  mkRabbus 0%nat 1%nat
    (mkCB "Rabbus" 1 0 defaultTimeout defaultReadyToTrip None StateClosed 1
          counts_clear None)
    (makeChan 0) (makeChan 0) (makeChan 0) (configWith 2 None) ∅.

(** The configuration [NewRabbus] keeps: a zero threshold becomes 5
    (lines 122-124). *)
Definition effective (c : Config.t) : Config.t :=
  if Config.Threshold c =? 0 then Config.with_Threshold c 5 else c.

(** The façade and the world [NewRabbus] leaves when the broker accepts
    the dial and the channel. *)
Definition startedWith (broker : Broker) (c : Config.t) : rabbus * World :=
  match NewRabbus broker c world0 with
  | Ok (inr r, w) => (r, w)
  | _ => (idleRabbus, world0)
  end.

(** What was published, in order: exchange, routing key and body of
    every publish of a trace. *)
Definition published (t : list Event)
    : list (string * string * list Byte.byte) :=
  omap (λ e, match e with
             | EvPublish _ ex key p _ => Some (ex, key, Publishing.Body p)
             | _ => None
             end) t.

Definition isSleep (e : Event) : bool :=
  match e with EvSleep _ => true | _ => false end.

Definition isDial (e : Event) : bool :=
  match e with EvDial _ _ => true | _ => false end.

Definition isClose (e : Event) : bool :=
  match e with
  | EvChannelClose _ | EvConnectionClose _ => true
  | _ => false
  end.

(** The calls [produce m] may make from the façade [r], whatever
    channel they go to: a declare of the exchange of [m] with its kind
    and the configured durability, and publishes to that exchange with
    the routing key and payload of [m]; the retry helper, its sleeps and
    the observer.  Nothing else: no dial, no channel-open, no queue
    declare, bind or consume, no close. *)
Definition pipelineEvent (m : Message.t) (r : rabbus) (e : Event) : Prop :=
  match e with
  | EvExchangeDeclare _ nm kind d _ =>
      nm = Message.Exchange m ∧ kind = Message.Kind m ∧
      d = Config.Durable (config r)
  | EvPublish _ ex key p _ =>
      ex = Message.Exchange m ∧ key = Message.Key m ∧
      Publishing.ContentEncoding p = "UTF-8" ∧
      Publishing.Body p = Message.Payload m
  | EvRetryDo _ _ | EvSleep _ | EvOnStateChange _ _ _ _ => True
  | _ => False
  end.

(** What a reconnection that looked at [fuel] rounds leaves: [n] rounds
    were run, each with one sleep of two seconds and one dial, nothing
    was closed, and either the loop is still running after all [fuel]
    rounds or the last round's connection and channel were installed. *)
Definition reconnectPost (dsn : string) (r : rabbus) (w : World)
    (fuel : nat) (o : option rabbus) (w' : World) : Prop :=
  ∃ n : nat,
    (n ≤ fuel)%nat ∧
    countIf isDial (trace w') = (countIf isDial (trace w) + n)%nat ∧
    countIf isSleep (trace w') = (countIf isSleep (trace w) + n)%nat ∧
    countIf isClose (trace w') = countIf isClose (trace w) ∧
    clock w' = clock w + 2 * second * Z.of_nat n ∧
    match o with
    | Some r' =>
        ∃ cn chn d,
          r' = with_handles r cn chn ∧
          trace w'
          = trace w ++ d ++ [EvDial dsn (inr cn); EvChannel cn (inr chn)]
    | None => n = fuel
    end.

Definition isReconnect (o : Op) : bool :=
  match o with OpConnectionLost _ _ => true | _ => false end.

(** A broker that refuses every dial, and one that accepts the dial and
    refuses to open a channel. *)
Definition brokerDialDown : Broker :=
  mkBroker (λ _ _, inl "connection refused") (onChannel brokerUp)
    (onExchangeDeclare brokerUp) (onQueueDeclare brokerUp)
    (onQueueBind brokerUp) (onConsume brokerUp) (onPublish brokerUp).

Definition brokerChannelDown : Broker :=
  mkBroker (onDial brokerUp) (λ _ _, inl "channel max reached")
    (onExchangeDeclare brokerUp) (onQueueDeclare brokerUp)
    (onQueueBind brokerUp) (onConsume brokerUp) (onPublish brokerUp).

(** A broker that names every queue "amq.gen-1" whatever name it is
    asked for, and one that refuses every consume. *)
Definition brokerNamesQueue : Broker :=
  mkBroker (onDial brokerUp) (onChannel brokerUp)
    (onExchangeDeclare brokerUp) (λ _ _ _ _, inr "amq.gen-1")
    (onQueueBind brokerUp) (onConsume brokerUp) (onPublish brokerUp).

Definition brokerConsumeDown : Broker :=
  mkBroker (onDial brokerUp) (onChannel brokerUp)
    (onExchangeDeclare brokerUp) (onQueueDeclare brokerUp)
    (onQueueBind brokerUp) (λ _ _ _, inl "not found") (onPublish brokerUp).

Definition ordersQueue : ListenConfig.t :=
  ListenConfig.mk "orders" "topic" "created" "q".

(** A façade started against [brokerUp], threshold 2, with an
    observer. *)
Definition startedRabbus : rabbus :=
  (startedWith brokerUp (configWith 2 (Some 7%nat))).1.

Definition startedWorld : World :=
  (startedWith brokerUp (configWith 2 (Some 7%nat))).2.

(** A façade started against [brokerPublishDown], threshold 2, with an
    observer; and the same without one. *)
Definition refusedRabbus : rabbus :=
  (startedWith brokerPublishDown (configWith 2 (Some 7%nat))).1.

Definition refusedWorld : World :=
  (startedWith brokerPublishDown (configWith 2 (Some 7%nat))).2.

Definition unobservedRabbus : rabbus :=
  (startedWith brokerPublishDown (configWith 2 None)).1.

Definition unobservedWorld : World :=
  (startedWith brokerPublishDown (configWith 2 None)).2.

(** A broker whose consume answers with a stream of 300 deliveries,
    tagged 1 to 300, that stays open. *)
Definition busyDeliveries : list AmqpDelivery :=
  map (λ i, mkDelivery (Z.of_nat i) "created" []) (seq 1 300).

Definition brokerBusy : Broker :=
  mkBroker (onDial brokerUp) (onChannel brokerUp)
    (onExchangeDeclare brokerUp) (onQueueDeclare brokerUp)
    (onQueueBind brokerUp) (λ _ _ _, inr (mkStream busyDeliveries false))
    (onPublish brokerUp).

(** * Properties *)

(** ** Running computations *)

Lemma bind_Ok {A B} (c : M A) (k : A → M B) w a w' :
  c w = Ok (a, w') → bind c k w = k a w'.
Proof. unfold bind. by intros ->. Qed.

Lemma bind_Panic {A B} (c : M A) (k : A → M B) w msg :
  c w = Panic msg → bind c k w = Panic msg.
Proof. unfold bind. by intros ->. Qed.

Lemma bind_ret_r {A} (c : M A) w : bind c (λ a, ret a) w = c w.
Proof. unfold bind, ret. by destruct (c w) as [[??]|]. Qed.

Lemma bind_assoc {A B C} (c : M A) (k : A → M B) (k' : B → M C) w :
  bind (bind c k) k' w = bind c (λ a, bind (k a) k') w.
Proof. unfold bind. by destruct (c w) as [[??]|]. Qed.

Lemma bind_inv {A B} (c : M A) (k : A → M B) w b w' :
  bind c k w = Ok (b, w') →
  ∃ a w1, c w = Ok (a, w1) ∧ k a w1 = Ok (b, w').
Proof.
  unfold bind. destruct (c w) as [[a w1]|msg]; [|discriminate].
  intros H. by exists a, w1.
Qed.

Section ClientCalls.

Variable broker : Broker.

Lemma ExchangeDeclare_run chn nm kind durable w :
  let res := onExchangeDeclare broker (trace w) chn nm kind durable in
  ExchangeDeclare broker chn nm kind durable w
  = Ok (toError res, logged w (EvExchangeDeclare chn nm kind durable res)).
Proof. reflexivity. Qed.

Lemma QueueDeclare_run chn nm durable w :
  let res := onQueueDeclare broker (trace w) chn nm durable in
  QueueDeclare broker chn nm durable w
  = Ok (toResult res, logged w (EvQueueDeclare chn nm durable res)).
Proof. reflexivity. Qed.

Lemma QueueBind_run chn q key ex w :
  let res := onQueueBind broker (trace w) chn q key ex in
  QueueBind broker chn q key ex w
  = Ok (toError res, logged w (EvQueueBind chn q key ex res)).
Proof. reflexivity. Qed.

Lemma Consume_run chn q w :
  let res := onConsume broker (trace w) chn q in
  Consume broker chn q w
  = Ok (toResult res, logged w (EvConsume chn q res)).
Proof. reflexivity. Qed.

Lemma Publish_run chn ex key p w :
  let res := onPublish broker (trace w) chn ex key p in
  Publish broker chn ex key p w
  = Ok (toError res, logged w (EvPublish chn ex key p res)).
Proof. reflexivity. Qed.

End ClientCalls.

(** ** Listen: validation of the request *)

(** C6: an empty exchange gives the missing-exchange sentinel, otherwise
    an empty kind gives the missing-kind sentinel, otherwise an empty
    queue gives the missing-queue sentinel; the three sentinels are
    pairwise distinct; in each of the three cases [Listen] returns with
    the world as it found it, so no declare, bind or consume call was
    made. *)
Theorem Listen_missing_field
    (broker : Broker) (CM : Type) (c : ListenConfig.t) (r : rabbus)
    (w : World) :
  (ListenConfig.Exchange c = "" →
     Listen broker (ConsumerMessage := CM) c r w
     = Ok (inl ErrMissingExchange, w)) ∧
  (ListenConfig.Exchange c ≠ "" → ListenConfig.Kind c = "" →
     Listen broker (ConsumerMessage := CM) c r w
     = Ok (inl ErrMissingKind, w)) ∧
  (ListenConfig.Exchange c ≠ "" → ListenConfig.Kind c ≠ "" →
   ListenConfig.Queue c = "" →
     Listen broker (ConsumerMessage := CM) c r w
     = Ok (inl ErrMissingQueue, w)) ∧
  ErrMissingExchange ≠ ErrMissingKind ∧
  ErrMissingExchange ≠ ErrMissingQueue ∧
  ErrMissingKind ≠ ErrMissingQueue.
Proof.
  unfold Listen. repeat split; try discriminate.
  - intros He. by rewrite decide_True.
  - intros He Hk. rewrite decide_False by done. by rewrite decide_True.
  - intros He Hk Hq. rewrite !decide_False by done. by rewrite decide_True.
Qed.

Lemma Listen_missing_field_witness :
  Listen brokerUp (ConsumerMessage := AmqpDelivery)
    (ListenConfig.mk "" "topic" "created" "q") idleRabbus world0
  = Ok (inl ErrMissingExchange, world0) ∧
  Listen brokerUp (ConsumerMessage := AmqpDelivery)
    (ListenConfig.mk "orders" "" "created" "q") idleRabbus world0
  = Ok (inl ErrMissingKind, world0) ∧
  Listen brokerUp (ConsumerMessage := AmqpDelivery)
    (ListenConfig.mk "orders" "topic" "created" "") idleRabbus world0
  = Ok (inl ErrMissingQueue, world0).
Proof.
  split; [|split].
  - apply (Listen_missing_field brokerUp AmqpDelivery). reflexivity.
  - apply (Listen_missing_field brokerUp AmqpDelivery);
      [discriminate|reflexivity].
  - apply (Listen_missing_field brokerUp AmqpDelivery);
      [discriminate|discriminate|reflexivity].
Defined.

(** ** Listen: the routing key *)

(** C9: with exchange, kind and queue non-empty and the key empty,
    [Listen] never panics and never returns one of the validation
    sentinels; when the broker accepts the four calls, [Listen] succeeds
    and the bind it made carries the empty routing key. *)
Theorem Listen_empty_key_accepted
    (broker : Broker) (CM : Type) (c : ListenConfig.t) (r : rabbus)
    (w : World) :
  ListenConfig.Exchange c ≠ "" → ListenConfig.Kind c ≠ "" →
  ListenConfig.Queue c ≠ "" → ListenConfig.Key c = "" →
  (∀ msg, Listen broker (ConsumerMessage := CM) c r w ≠ Panic msg) ∧
  (∀ e w', Listen broker (ConsumerMessage := CM) c r w = Ok (inl e, w') →
           isSentinel e = false) ∧
  (∀ q st,
     let durable := Config.Durable (config r) in
     let ex := ListenConfig.Exchange c in
     let w1 := logged w (EvExchangeDeclare (ch r) ex (ListenConfig.Kind c)
                                           durable None) in
     let w2 := logged w1 (EvQueueDeclare (ch r) (ListenConfig.Queue c)
                                         durable (inr q)) in
     let w3 := logged w2 (EvQueueBind (ch r) q "" ex None) in
     let w4 := logged w3 (EvConsume (ch r) q (inr st)) in
     onExchangeDeclare broker (trace w) (ch r) ex (ListenConfig.Kind c)
                       durable = None →
     onQueueDeclare broker (trace w1) (ch r) (ListenConfig.Queue c) durable
       = inr q →
     onQueueBind broker (trace w2) (ch r) q "" ex = None →
     onConsume broker (trace w3) (ch r) q = inr st →
     Listen broker (ConsumerMessage := CM) c r w
     = Ok (inr (mkRelay (deliveries st) (closes st) (makeChan 256) false),
           w4)).
Proof.
  intros He Hk Hq Hkey. unfold Listen.
  rewrite !decide_False by done. rewrite Hkey.
  rewrite (bind_Ok _ _ _ _ _ (ExchangeDeclare_run broker _ _ _ _ w)).
  set (durable := Config.Durable (config r)).
  set (ex := ListenConfig.Exchange c).
  destruct (onExchangeDeclare broker (trace w) (ch r) ex
              (ListenConfig.Kind c) durable) as [s1|] eqn:E1; simpl.
  { split; [discriminate|]. split; [by intros e w' [= <- _]|].
    intros q st H1; discriminate H1. }
  rewrite (bind_Ok _ _ _ _ _ (QueueDeclare_run broker _ _ _ _)).
  destruct (onQueueDeclare broker _ (ch r) (ListenConfig.Queue c)
              durable) as [s2|q] eqn:E2; simpl.
  { split; [discriminate|]. split; [by intros e w' [= <- _]|].
    intros q st _ H2; discriminate H2. }
  rewrite (bind_Ok _ _ _ _ _ (QueueBind_run broker _ _ _ _ _)).
  destruct (onQueueBind broker _ (ch r) q "" ex) as [s3|] eqn:E3; simpl.
  { split; [discriminate|]. split; [by intros e w' [= <- _]|].
    intros q' st _ [= <-] H3. unfold logged in *; simpl in *. congruence. }
  rewrite (bind_Ok _ _ _ _ _ (Consume_run broker _ _ _)).
  destruct (onConsume broker _ (ch r) q) as [s4|st] eqn:E4; simpl.
  { split; [discriminate|]. split; [by intros e w' [= <- _]|].
    intros q' st _ [= <-] _ H4. unfold logged in *; simpl in *.
    congruence. }
  split; [discriminate|]. split; [discriminate|].
  intros q' st' _ [= <-] _ H4. unfold logged in *; simpl in *.
  assert (st' = st) as -> by congruence. reflexivity.
Qed.

Lemma Listen_empty_key_accepted_witness :
  Listen brokerUp (ConsumerMessage := AmqpDelivery)
    (ListenConfig.mk "orders" "topic" "" "q") idleRabbus world0
  = Ok (inr (mkRelay [mkDelivery 1 "created" []] true (makeChan 256) false),
        mkWorld [EvExchangeDeclare 1%nat "orders" "topic" true None;
                 EvQueueDeclare 1%nat "q" true (inr "q");
                 EvQueueBind 1%nat "q" "" "orders" None;
                 EvConsume 1%nat "q"
                   (inr (mkStream [mkDelivery 1 "created" []] true))] 0).
Proof.
  refine (proj2 (proj2 (Listen_empty_key_accepted brokerUp AmqpDelivery
            (ListenConfig.mk "orders" "topic" "" "q") idleRabbus world0
            _ _ _ _))
            "q" (mkStream [mkDelivery 1 "created" []] true) _ _ _ _);
    try discriminate; reflexivity.
Defined.

(** ** Listen: the relay goroutine *)

Section RelayProperties.

Context {CM : Type} (newCM : AmqpDelivery → CM).

Lemma relayStep_inv all cl s s' got :
  relayInv newCM all cl s got → relayStep newCM s = Some s' →
  relayInv newCM all cl s' got.
Proof.
  unfold relayInv, relayStep.
  intros (Hseq & Hlen & Hcap & Hopen & Hcl & Hret) Hstep.
  destruct (returned s) eqn:Er; [discriminate|].
  destruct (pending s) as [|m rest] eqn:Ep.
  - destruct (msgsCloses s) eqn:Ec; [|discriminate].
    injection Hstep as <-. simpl. by rewrite app_nil_r in *.
  - case_decide as Hroom; [|discriminate].
    injection Hstep as <-. simpl in *.
    rewrite length_app. simpl.
    split; [by rewrite <- Hseq, <- !app_assoc|].
    repeat split; try done; lia.
Qed.

Lemma receive_inv all cl s s' x got :
  relayInv newCM all cl s got → receive s = Some (x, s') →
  relayInv newCM all cl s' (got ++ [x]).
Proof.
  unfold relayInv, receive.
  intros (Hseq & Hlen & Hcap & Hopen & Hcl & Hret) Hstep.
  destruct (buf (messages s)) as [|y rest] eqn:Eb; [discriminate|].
  injection Hstep as <- <-. simpl in *.
  split; [by rewrite <- Hseq, <- !app_assoc|].
  repeat split; try done; try lia; by apply Hret.
Qed.

Lemma runRelay_inv all cl sched : ∀ s got,
  relayInv newCM all cl s got →
  relayInv newCM all cl (runRelay newCM sched s got).1
                        (runRelay newCM sched s got).2.
Proof.
  induction sched as [|[|] sched IH]; intros s got Hinv; simpl.
  - done.
  - apply IH. destruct (relayStep newCM s) as [s'|] eqn:E; simpl.
    + by eapply relayStep_inv.
    + done.
  - destruct (receive s) as [[x s']|] eqn:E.
    + apply IH. by eapply receive_inv.
    + by apply IH.
Qed.

(** A relay that has returned never moves again. *)
Lemma relayStep_returned s : returned s = true → relayStep newCM s = None.
Proof. unfold relayStep. by intros ->. Qed.

Lemma runRelay_app s1 s2 : ∀ s got,
  runRelay newCM (s1 ++ s2) s got
  = runRelay newCM s2 (runRelay newCM s1 s got).1
                      (runRelay newCM s1 s got).2.
Proof.
  induction s1 as [|[|] s1 IH]; intros s got; simpl; [done|apply IH|].
  destruct (receive s) as [[x s']|]; apply IH.
Qed.

(** With an empty buffer of positive capacity, relaying and at once
    receiving each delivery hands all of them over. *)
Lemma runRelay_prompt ds : ∀ closes c got,
  (0 < c)%nat →
  runRelay newCM (concat (replicate (length ds) [TurnRelay; TurnReceive]))
    (mkRelay ds closes (mkChan [] c false) false) got
  = (mkRelay [] closes (mkChan [] c false) false, got ++ map newCM ds).
Proof.
  induction ds as [|d ds IH]; intros closes c got Hc; simpl.
  - by rewrite app_nil_r.
  - unfold relayStep. simpl. rewrite decide_True by done. simpl.
    rewrite IH by done. by rewrite <- app_assoc.
Qed.

End RelayProperties.

Lemma Listen_success_inv
    (broker : Broker) (CM : Type) (c : ListenConfig.t) (r : rabbus)
    (w w' : World) (s0 : Relay CM) :
  Listen broker c r w = Ok (inr s0, w') →
  ∃ q st, last (trace w') = Some (EvConsume (ch r) q (inr st)) ∧
          s0 = mkRelay (deliveries st) (closes st) (makeChan 256) false.
Proof.
  unfold Listen. repeat case_decide; try discriminate.
  rewrite (bind_Ok _ _ _ _ _ (ExchangeDeclare_run broker _ _ _ _ w)).
  destruct (onExchangeDeclare broker _ _ _ _ _); simpl; [discriminate|].
  rewrite (bind_Ok _ _ _ _ _ (QueueDeclare_run broker _ _ _ _)).
  destruct (onQueueDeclare broker _ _ _ _) as [|q]; simpl; [discriminate|].
  rewrite (bind_Ok _ _ _ _ _ (QueueBind_run broker _ _ _ _ _)).
  destruct (onQueueBind broker _ _ _ _ _); simpl; [discriminate|].
  rewrite (bind_Ok _ _ _ _ _ (Consume_run broker _ _ _)).
  destruct (onConsume broker _ _ _) as [|st]; simpl; [discriminate|].
  intros [= <- <-]. exists q, st. split; [|done].
  unfold logged; simpl. by rewrite last_snoc.
Qed.

(** C2 (as the code has it): after a successful [Listen] the output
    channel has capacity 256 and the relay holds the stream the consume
    call returned; under every interleaving of the relay goroutine and
    the receiving application, what was received, what waits in the
    buffer and what is still to come are, in this order, exactly the
    wrapped deliveries of the stream, the buffer holds at most 256
    values, and the output channel is open; a relay that has returned
    does not move again and left nothing unforwarded; relaying and
    receiving in turn hands every delivery over, after which the relay
    has returned if the stream closes, and the output channel is still
    open. *)
Theorem Listen_relay_in_order
    (broker : Broker) (CM : Type) (newCM : AmqpDelivery → CM)
    (c : ListenConfig.t) (r : rabbus) (w w' : World) (s0 : Relay CM) :
  Listen broker c r w = Ok (inr s0, w') →
  (∃ q st, last (trace w') = Some (EvConsume (ch r) q (inr st)) ∧
           pending s0 = deliveries st ∧ msgsCloses s0 = closes st) ∧
  cap (messages s0) = 256%nat ∧ buf (messages s0) = [] ∧
  (∀ sched,
     let s := (runRelay newCM sched s0 []).1 in
     let got := (runRelay newCM sched s0 []).2 in
     got ++ buf (messages s) ++ map newCM (pending s)
       = map newCM (pending s0) ∧
     (length (buf (messages s)) ≤ 256)%nat ∧
     closed (messages s) = false ∧
     (returned s = true →
        relayStep newCM s = None ∧ pending s = [] ∧ msgsCloses s0 = true)) ∧
  (let s := (runRelay newCM (promptSchedule (length (pending s0))) s0 []).1 in
   let got :=
     (runRelay newCM (promptSchedule (length (pending s0))) s0 []).2 in
   got = map newCM (pending s0) ∧ returned s = msgsCloses s0 ∧
   closed (messages s) = false).
Proof.
  intros HL.
  destruct (Listen_success_inv _ _ _ _ _ _ _ HL) as (q & st & Hlast & ->).
  split; [by exists q, st|]. split; [done|]. split; [done|]. split.
  - intros sched s got.
    assert (relayInv newCM (deliveries st) (closes st)
              (mkRelay (deliveries st) (closes st) (makeChan 256) false) [])
      as Hinv0.
    { unfold relayInv; simpl. repeat split; try done. lia. }
    pose proof (runRelay_inv newCM _ _ sched _ _ Hinv0) as Hinv.
    fold s got in Hinv.
    destruct Hinv as (Hseq & Hlen & Hcap & Hopen & Hcl & Hret).
    simpl. split; [done|]. split; [by rewrite <- Hcap|]. split; [done|].
    intros Hr. split; [by apply relayStep_returned|]. by apply Hret.
  - simpl. unfold promptSchedule, makeChan.
    rewrite runRelay_app, runRelay_prompt by lia. simpl.
    unfold relayStep; simpl. by destruct (closes st).
Qed.

Lemma Listen_relay_in_order_witness :
  (runRelay id (promptSchedule 1)
     (mkRelay [mkDelivery 1 "created" []] true (makeChan 256) false) []).2
  = [mkDelivery 1 "created" []].
Proof.
  pose proof (Listen_relay_in_order brokerUp AmqpDelivery id
                (ListenConfig.mk "orders" "topic" "created" "q")
                idleRabbus world0 _ _ eq_refl) as H.
  exact (proj1 (proj2 (proj2 (proj2 (proj2 H))))).
Defined.

(** C2 as stated fails: the stream of this subscription holds one
    delivery and then closes; after two turns the relay goroutine has
    returned, and the output channel is not closed. *)
Lemma relay_leaves_output_open :
  ¬ (∀ (sched : list Turn) (s0 : Relay AmqpDelivery) (w' : World),
       Listen brokerUp (ListenConfig.mk "orders" "topic" "created" "q")
              idleRabbus world0 = Ok (inr s0, w') →
       returned (runRelay id sched s0 []).1 = true →
       closed (messages (runRelay id sched s0 []).1) = true).
Proof.
  intros H.
  specialize (H [TurnRelay; TurnRelay] _ _ eq_refl eq_refl).
  discriminate H.
Qed.

(** ** Reasoning about computations *)

Lemma wp_ret {A} (a : A) Q E w : Q a w → wp (ret a) Q E w.
Proof. done. Qed.

Lemma wp_bind {A B} (c : M A) (k : A → M B) Q E w :
  wp c (λ a w1, wp (k a) Q E w1) E w → wp (bind c k) Q E w.
Proof. unfold wp, bind. by destruct (c w) as [[a w1]|]. Qed.

Lemma wp_mono {A} (c : M A) (Q Q' : A → World → Prop) (E E' : Prop) w :
  wp c Q E w → (∀ a w', Q a w' → Q' a w') → (E → E') → wp c Q' E' w.
Proof. unfold wp. destruct (c w) as [[a w1]|]; auto. Qed.

Lemma wp_Ok {A} (c : M A) Q E w a w' :
  wp c Q E w → c w = Ok (a, w') → Q a w'.
Proof. unfold wp. intros H Hc. by rewrite Hc in H. Qed.

Lemma wp_Panic {A} (c : M A) Q E w msg :
  wp c Q E w → c w = Panic msg → E.
Proof. unfold wp. intros H Hc. by rewrite Hc in H. Qed.

Lemma wp_total {A} (c : M A) Q E w :
  wp c Q E w → ¬ E → ∃ a w', c w = Ok (a, w') ∧ Q a w'.
Proof.
  unfold wp. destruct (c w) as [[a w1]|]; intros H HE; [|done].
  by exists a, w1.
Qed.

Lemma ext_refl P w : ext P w w.
Proof. exists []. by rewrite app_nil_r. Qed.

Lemma ext_trans P w1 w2 w3 : ext P w1 w2 → ext P w2 w3 → ext P w1 w3.
Proof.
  intros (d1 & H1 & F1) (d2 & H2 & F2). exists (d1 ++ d2). split.
  - by rewrite H2, H1, app_assoc.
  - by apply Forall_app.
Qed.

Lemma ext_logged (P : Event → Prop) w e : P e → ext P w (logged w e).
Proof. intros HP. exists [e]. split; [done|]. by constructor. Qed.

Lemma ext_mono (P P' : Event → Prop) w w' :
  (∀ e, P e → P' e) → ext P w w' → ext P' w w'.
Proof.
  intros HPP (d & H & F). exists d. split; [done|].
  eapply Forall_impl; eauto.
Qed.

(** ** The breaker under the observer of [NewRabbus] *)

Lemma sameSettings_refl cb : sameSettings cb cb.
Proof. by repeat split. Qed.

Lemma sameSettings_trans cb1 cb2 cb3 :
  sameSettings cb1 cb2 → sameSettings cb2 cb3 → sameSettings cb1 cb3.
Proof.
  unfold sameSettings. intros (?&?&?&?&?&?) (?&?&?&?&?&?).
  repeat split; congruence.
Qed.

Lemma sameSettings_update cb st g k e :
  sameSettings cb (cb_update cb st g k e).
Proof. by repeat split. Qed.

Lemma sameSettings_newGeneration cb now :
  sameSettings cb (toNewGeneration cb now).
Proof. by repeat split. Qed.

Create HintDb breaker.

#[local] Hint Resolve sameSettings_refl sameSettings_update
  sameSettings_newGeneration ext_refl : breaker.

Section BreakerOperations.

Variable c : Config.t.
Variable P : Event → Prop.
Hypothesis P_stateChange : ∀ e, isStateChange e → P e.

Lemma cbPost_refl cb w : cbPost c P cb w cb w.
Proof. repeat split; auto with breaker. Qed.

Lemma cbPost_trans cb1 w1 cb2 w2 cb3 w3 :
  cbPost c P cb1 w1 cb2 w2 → cbPost c P cb2 w2 cb3 w3 →
  cbPost c P cb1 w1 cb3 w3.
Proof.
  intros (S1 & X1 & C1) (S2 & X2 & C2). split; [|split].
  - by eapply sameSettings_trans.
  - by eapply ext_trans.
  - intros Hne. destruct (decide (state cb2 = state cb1)) as [Heq|Hd].
    + apply C2. by rewrite Heq.
    + by apply C1.
Qed.

(** Counts change, nothing else. *)
Lemma cbPost_setCounts cb k w : cbPost c P cb w (cb_setCounts cb k) w.
Proof. repeat split; auto with breaker. Qed.

Lemma cbPost_newGeneration cb now w :
  cbPost c P cb w (toNewGeneration cb now) w.
Proof. repeat split; auto with breaker. Qed.

Lemma setState_wp cb st now w :
  onStateChange cb = Some (observer c) →
  wp (setState cb st now) (cbPost c P cb w)
     (Config.OnStateChange c = None) w.
Proof.
  intros Hobs. unfold setState. case_decide as Hst.
  - apply wp_ret, cbPost_refl.
  - rewrite Hobs. unfold observer, callOnStateChange, wp, bind.
    destruct (Config.OnStateChange c) as [f|] eqn:Ef; simpl; [|done].
    split; [|split].
    + by repeat split.
    + apply ext_logged, P_stateChange. exact I.
    + intros _. by rewrite Ef.
Qed.

Lemma currentState_wp cb now w :
  onStateChange cb = Some (observer c) →
  wp (currentState cb now) (cbPost c P cb w)
     (Config.OnStateChange c = None) w.
Proof.
  intros Hobs. unfold currentState. destruct (state cb) eqn:Est.
  - destruct (expiry cb) as [t|]; [destruct (t <? now)|];
      apply wp_ret; first [apply cbPost_newGeneration|apply cbPost_refl].
  - apply wp_ret, cbPost_refl.
  - destruct (expired (expiry cb) now).
    + by apply setState_wp.
    + apply wp_ret, cbPost_refl.
Qed.

Lemma beforeRequest_wp cb w :
  onStateChange cb = Some (observer c) →
  wp (beforeRequest cb) (λ x w', cbPost c P cb w x.2 w')
     (Config.OnStateChange c = None) w.
Proof.
  intros Hobs. unfold beforeRequest. apply wp_bind. unfold timeNow, wp at 1.
  apply wp_bind. eapply wp_mono; [by apply currentState_wp| |done].
  intros cb1 w1 H1. simpl.
  destruct (state cb1); [| destruct (_ <=? _) |]; apply wp_ret; simpl;
    try done;
    (eapply cbPost_trans; [exact H1|apply cbPost_setCounts]).
Qed.

Lemma onSuccess_wp cb now w :
  onStateChange cb = Some (observer c) →
  wp (onSuccess cb (state cb) now) (cbPost c P cb w)
     (Config.OnStateChange c = None) w.
Proof.
  intros Hobs. unfold onSuccess. destruct (state cb) eqn:Est.
  - apply wp_ret, cbPost_setCounts.
  - destruct (_ <=? _).
    + eapply wp_mono; [by apply setState_wp| |done].
      intros cb' w' H. eapply cbPost_trans; [apply cbPost_setCounts|done].
    + apply wp_ret, cbPost_setCounts.
  - apply wp_ret, cbPost_refl.
Qed.

Lemma onFailure_wp cb now w :
  onStateChange cb = Some (observer c) →
  wp (onFailure cb (state cb) now) (cbPost c P cb w)
     (Config.OnStateChange c = None) w.
Proof.
  intros Hobs. unfold onFailure. destruct (state cb) eqn:Est.
  - destruct (readyToTrip _ _).
    + eapply wp_mono; [by apply setState_wp| |done].
      intros cb' w' H. eapply cbPost_trans; [apply cbPost_setCounts|done].
    + apply wp_ret, cbPost_setCounts.
  - by apply setState_wp.
  - apply wp_ret, cbPost_refl.
Qed.

Lemma afterRequest_wp cb before success w :
  onStateChange cb = Some (observer c) →
  wp (afterRequest cb before success) (cbPost c P cb w)
     (Config.OnStateChange c = None) w.
Proof.
  intros Hobs. unfold afterRequest. apply wp_bind. unfold timeNow, wp at 1.
  apply wp_bind. eapply wp_mono; [by apply currentState_wp| |done].
  intros cb1 w1 H1. simpl.
  assert (onStateChange cb1 = Some (observer c)) as Hobs1.
  { destruct H1 as ((_&_&_&_&_&->) & _). done. }
  case_decide.
  - destruct success.
    + eapply wp_mono; [by apply onSuccess_wp| |done].
      intros cb' w' H'. by eapply cbPost_trans.
    + eapply wp_mono; [by apply onFailure_wp| |done].
      intros cb' w' H'. by eapply cbPost_trans.
  - by apply wp_ret.
Qed.

(** [Execute] around a request that does not panic and logs only
    events in [P]. *)
Lemma Execute_wp cb (req : M (option error)) w :
  onStateChange cb = Some (observer c) →
  (∀ w1, wp req (λ _ w2, ext P w1 w2) False w1) →
  wp (Execute cb req) (λ x w', cbPost c P cb w x.2 w')
     (Config.OnStateChange c = None) w.
Proof.
  intros Hobs Hreq. unfold Execute. apply wp_bind.
  eapply wp_mono; [by apply beforeRequest_wp| |done].
  intros [res cb1] w1 H1. simpl in *.
  assert (onStateChange cb1 = Some (observer c)) as Hobs1.
  { destruct H1 as ((_&_&_&_&_&->) & _). done. }
  destruct res as [e|gen].
  - by apply wp_ret.
  - apply wp_bind. eapply wp_mono; [apply Hreq| |done].
    intros err w2 H2. simpl. apply wp_bind.
    eapply wp_mono; [by apply afterRequest_wp| |done].
    intros cb2 w3 H3. apply wp_ret. simpl.
    eapply cbPost_trans; [exact H1|].
    eapply cbPost_trans; [|exact H3].
    split; [|split]; auto with breaker.
Qed.

End BreakerOperations.

(** A closed breaker admits the request, whatever its clearing
    deadline, and leaves the world as it is. *)
Lemma beforeRequest_closed_any cb w :
  state cb = StateClosed →
  ∃ g cb1,
    beforeRequest cb w = Ok ((inr g, cb1), w) ∧
    state cb1 = StateClosed ∧ sameSettings cb cb1.
Proof.
  intros Hs. unfold beforeRequest, bind, timeNow, currentState. rewrite Hs.
  destruct (expiry cb) as [t|]; [destruct (t <? clock w)|]; simpl;
    rewrite ?Hs; simpl; eexists _, _; (split; [reflexivity|]);
    by repeat split.
Qed.

(** ** The producer pipeline *)

Lemma retryLoop_wp (P : Event → Prop) (fn : M (option error)) (sleep : Z) :
  (∀ w, wp fn (λ _ w', ext P w w') False w) → P (EvSleep sleep) →
  ∀ n w, wp (retryLoop n fn sleep) (λ _ w', ext P w w') False w.
Proof.
  intros Hfn Hsleep. induction n as [|n IH]; intros w; simpl.
  - apply wp_bind. eapply wp_mono; [apply Hfn| |done].
    intros [err|] w1 H1; by apply wp_ret.
  - apply wp_bind. eapply wp_mono; [apply Hfn| |done].
    intros [err|] w1 H1; [|by apply wp_ret].
    apply wp_bind. unfold timeSleep, wp at 1.
    eapply wp_mono; [apply IH| |done].
    intros e w2 H2. simpl in H2. eapply ext_trans; [exact H1|].
    eapply ext_trans; [|exact H2].
    exists [EvSleep sleep]. split; [done|]. by constructor.
Qed.

Lemma retryDo_wp (P : Event → Prop) (fn : M (option error))
    (attempts sleep : Z) :
  (∀ w, wp fn (λ _ w', ext P w w') False w) →
  P (EvSleep sleep) → P (EvRetryDo attempts sleep) →
  ∀ w, wp (retryDo fn attempts sleep) (λ _ w', ext P w w') False w.
Proof.
  intros Hfn Hsleep Hdo w. unfold retryDo. apply wp_bind.
  unfold log, wp at 1.
  eapply wp_mono; [by apply retryLoop_wp| |done].
  intros e w2 H2. simpl in H2. eapply ext_trans; [|exact H2].
  by apply (ext_logged P w).
Qed.

Section Pipeline.

Variable broker : Broker.

Lemma publishOnce_wp m r w :
  wp (publishOnce broker m r)
     (λ _ w', ext (guardedEvent m (ch r)) w w') False w.
Proof.
  unfold publishOnce, wp, bind, timeNow. rewrite Publish_run. simpl.
  apply ext_logged. by repeat split.
Qed.

Lemma sameFacade_refl r : sameFacade r r.
Proof. repeat split. Qed.

Lemma sameFacade_trans r1 r2 r3 :
  sameFacade r1 r2 → sameFacade r2 r3 → sameFacade r1 r3.
Proof.
  intros (?&?&?&?&?&?&?) (?&?&?&?&?&?&?).
  do 6 (split; [congruence|]). by eapply sameSettings_trans.
Qed.

Lemma wired_sameFacade r r' : wired r → sameFacade r r' → wired r'.
Proof.
  unfold wired. intros (?&?&?&?&?&?) (_&_&_&Hc&_&_&(?&?&?&?&?&?)).
  rewrite Hc. repeat split; congruence.
Qed.

Lemma wired_observer r :
  wired r → onStateChange (breaker r) = Some (observer (config r)).
Proof. by intros (_&_&_&_&_&?). Qed.

Lemma publishGuarded_wp m r w :
  onStateChange (breaker r) = Some (observer (config r)) →
  wp (publishGuarded broker m r)
     (λ r' w',
        sameFacade r r' ∧ oneOutcome r r' ∧ exDeclared r' = exDeclared r ∧
        ext (guardedEvent m (ch r)) w w' ∧
        (state (breaker r') ≠ state (breaker r) →
         Config.OnStateChange (config r) ≠ None))
     (Config.OnStateChange (config r) = None) w.
Proof.
  intros Hobs. unfold publishGuarded. apply wp_bind.
  eapply wp_mono;
    [apply (Execute_wp (config r) (guardedEvent m (ch r)))| |done].
  - by intros [].
  - done.
  - intros w1. apply retryDo_wp; try done. intros w2. apply publishOnce_wp.
  - intros [err cb] w1 (HS & HX & HC). simpl in *.
    assert (sameFacade r (with_breaker r cb)) as HF
      by (do 6 (split; [done|]); exact HS).
    destruct err as [e|]; apply wp_ret; (split; [exact HF|]);
      (split; [|done]).
    + left. by exists e.
    + by right.
Qed.

Lemma produce_wp m r w :
  onStateChange (breaker r) = Some (observer (config r)) →
  wp (produce broker m r) (producePost broker m r w)
     (Config.OnStateChange (config r) = None) w.
Proof.
  intros Hobs. unfold produce, ensureExchange, producePost.
  case_decide as Hin.
  - apply wp_bind, wp_ret.
    eapply wp_mono; [by apply publishGuarded_wp| |done].
    intros r' w' (HF & HO & HE & HX & HC). done.
  - apply wp_bind, wp_bind. unfold wp at 1. rewrite ExchangeDeclare_run.
    fold (declareAnswer broker m r w).
    destruct (declareAnswer broker m r w) as [reason|]; simpl.
    + unfold wp; simpl. split; [by repeat split|].
      split; [left; by eexists|]. done.
    + apply wp_ret.
      eapply wp_mono; [by apply publishGuarded_wp| |done].
      intros r' w' (HF & HO & HE & HX & HC). done.
Qed.

End Pipeline.

Section PipelineOutcomes.

Variable broker : Broker.

Lemma oneOutcome_outcomes r r' :
  oneOutcome r r' → outcomes r' = S (outcomes r).
Proof.
  unfold outcomes. intros [(e & -> & ->)|(-> & ->)]; simpl;
    rewrite length_app; simpl; lia.
Qed.

Lemma registerLoop_wp ms : ∀ r w,
  wired r →
  wp (registerLoop broker ms r)
     (λ r' w', sameFacade r r' ∧
               outcomes r' = (outcomes r + length ms)%nat ∧
               exDeclared r ⊆ exDeclared r' ∧
               (state (breaker r') ≠ state (breaker r) →
                Config.OnStateChange (config r) ≠ None))
     (Config.OnStateChange (config r) = None) w.
Proof.
  induction ms as [|m ms IH]; intros r w Hw; simpl.
  - apply wp_ret. split; [apply sameFacade_refl|].
    split; [lia|]. split; [done|]. done.
  - apply wp_bind.
    eapply wp_mono; [apply produce_wp, wired_observer, Hw| |done].
    intros r1 w1 (HF & HO & HC & HD).
    assert (wired r1) as Hw1 by by eapply wired_sameFacade.
    assert (config r1 = config r) as Hc by apply HF.
    assert (exDeclared r ⊆ exDeclared r1) as Hsub.
    { case_decide; [by destruct HD as [-> _]|].
      destruct (declareAnswer broker m r w).
      - destruct HD as [-> _]. done.
      - destruct HD as [-> _]. set_solver. }
    eapply wp_mono; [by apply IH| |by rewrite Hc].
    intros r2 w2 (HF2 & HO2 & HS2 & HC2).
    split; [by eapply sameFacade_trans|].
    split; [rewrite HO2, (oneOutcome_outcomes _ _ HO); lia|].
    split; [set_solver|].
    intros Hne. destruct (decide (state (breaker r1) = state (breaker r))).
    + rewrite <- Hc. apply HC2. congruence.
    + by apply HC.
Qed.

End PipelineOutcomes.

(** C5: a message handed to [produce] ends in exactly one value on
    exactly one of the two output channels, an error on the error
    channel or the empty signal on the success channel; the only way for
    the pipeline to die instead is the panic of a nil [OnStateChange];
    and the producer loop sends as many outcomes as it took messages. *)
Theorem produce_one_outcome
    (broker : Broker) (m : Message.t) (ms : list Message.t) (r : rabbus)
    (w : World) :
  wired r →
  match produce broker m r w with
  | Ok (r', w') =>
      ((∃ e, buf (emitErr r') = buf (emitErr r) ++ [e] ∧
             buf (emitOk r') = buf (emitOk r)) ∨
       (buf (emitErr r') = buf (emitErr r) ∧
        buf (emitOk r') = buf (emitOk r) ++ [tt])) ∧
      outcomes r' = S (outcomes r)
  | Panic _ => Config.OnStateChange (config r) = None
  end ∧
  match registerLoop broker ms r w with
  | Ok (r', w') => outcomes r' = (outcomes r + length ms)%nat
  | Panic _ => Config.OnStateChange (config r) = None
  end.
Proof.
  intros Hw. split.
  - pose proof (produce_wp broker m r w (wired_observer r Hw)) as H.
    unfold wp in H. destruct (produce broker m r w) as [[r' w']|]; [|done].
    destruct H as (_ & HO & _). split; [|by apply oneOutcome_outcomes].
    destruct HO as [(e & -> & ->)|(-> & ->)]; [left; by exists e|by right].
  - pose proof (registerLoop_wp broker ms r w Hw) as H.
    unfold wp in H.
    destruct (registerLoop broker ms r w) as [[r' w']|]; [|done].
    apply H.
Qed.

(** ** What NewRabbus builds *)

Lemma NewRabbus_started broker c w r w' :
  NewRabbus broker c w = Ok (inr r, w') →
  wired r ∧ config r = effective c ∧
  state (breaker r) = StateClosed ∧ counts (breaker r) = counts_clear ∧
  expiry (breaker r)
    = (if Config.Interval c =? 0 then None
       else Some (clock w + Config.Interval c)) ∧
  exDeclared r = ∅ ∧ buf (emit r) = [] ∧
  buf (emitErr r) = [] ∧ buf (emitOk r) = [] ∧ clock w' = clock w.
Proof.
  unfold NewRabbus, amqpDial, connChannel, bind, getTrace, log, ret,
    NewCircuitBreaker, timeNow. simpl.
  destruct (onDial broker _ _) as [|cn]; simpl; [discriminate|].
  destruct (onChannel broker _ _) as [|chn]; simpl; [discriminate|].
  intros [= <- <-]. unfold wired, effective; simpl.
  destruct (Config.Threshold c =? 0); simpl; repeat split.
Qed.

Lemma startedWith_wired : wired startedRabbus.
Proof. repeat split. Qed.

Lemma produce_one_outcome_witness :
  wired startedRabbus ∧
  match registerLoop brokerUp [ordersCreated; ordersCreated] startedRabbus
          startedWorld with
  | Ok (r', w') => outcomes r' = (outcomes startedRabbus + 2)%nat
  | Panic _ => Config.OnStateChange (config startedRabbus) = None
  end.
Proof.
  split; [exact startedWith_wired|].
  exact (proj2 (produce_one_outcome brokerUp ordersCreated
                  [ordersCreated; ordersCreated] startedRabbus startedWorld
                  startedWith_wired)).
Defined.

(** ** Close *)

Lemma step_emit_wp broker m r w :
  wired r →
  wp (step broker (OpEmit m) r)
     (λ r' w', wired r' ∧ config r' = config r ∧ conn r' = conn r ∧
               ch r' = ch r ∧ buf (emit r') = [] ∧
               closed (emit r') = closed (emit r) ∧
               closed (emitErr r') = closed (emitErr r) ∧
               closed (emitOk r') = closed (emitOk r) ∧
               outcomes r' = S (outcomes r + length (buf (emit r)))%nat ∧
               exDeclared r ⊆ exDeclared r' ∧
               (state (breaker r') ≠ state (breaker r) →
                Config.OnStateChange (config r) ≠ None))
     (Config.OnStateChange (config r) = None) w.
Proof.
  intros Hw. unfold step, register. simpl.
  set (r0 := with_emit _ _).
  assert (wired r0) as Hw0 by exact Hw.
  eapply wp_mono; [by apply registerLoop_wp| |done].
  intros r' w' (HF & HO & HS & HC).
  split; [by eapply wired_sameFacade|].
  destruct HF as (Hcn & Hch & Hem & Hcf & Hce & Hco & _).
  repeat split; try done.
  - by rewrite Hem.
  - by rewrite Hem.
  - rewrite HO, length_app. unfold outcomes; simpl. lia.
Qed.

(** C10: [Close] closes the channel and then the connection and returns
    the façade as it was: the three Go channels, the breaker, the cache
    and the handles are untouched; a message sent on [emit] after
    [Close] is still taken by the producer goroutine and gets its one
    outcome (the pipeline dies only by the panic of a nil
    [OnStateChange]). *)
Theorem Close_leaves_pipeline
    (broker : Broker) (m : Message.t) (r : rabbus) (w : World) :
  wired r → buf (emit r) = [] →
  Close r w
  = Ok (r, mkWorld (trace w ++ [EvChannelClose (ch r);
                                EvConnectionClose (conn r)]) (clock w)) ∧
  match run broker [OpClose; OpEmit m] r w with
  | Ok (r', w') =>
      buf (emit r') = [] ∧ closed (emit r') = closed (emit r) ∧
      closed (emitErr r') = closed (emitErr r) ∧
      closed (emitOk r') = closed (emitOk r) ∧
      outcomes r' = S (outcomes r)
  | Panic _ => Config.OnStateChange (config r) = None
  end.
Proof.
  intros Hw Hemit.
  assert (Close r w
          = Ok (r, mkWorld (trace w ++ [EvChannelClose (ch r);
                                        EvConnectionClose (conn r)])
                           (clock w))) as HC.
  { unfold Close, bind, channelClose, connectionClose, log, ret. simpl.
    by rewrite <- app_assoc. }
  split; [exact HC|].
  unfold run. simpl step. rewrite (bind_Ok _ _ _ _ _ HC).
  set (w1 := mkWorld _ _).
  simpl. rewrite bind_ret_r.
  pose proof (step_emit_wp broker m r w1 Hw) as H. unfold wp in H.
  unfold step, register in *. simpl in *.
  destruct (registerLoop broker _ _ w1) as [[r' w']|]; [|done].
  destruct H as (_ & _ & _ & _ & He & Hc1 & Hc2 & Hc3 & Ho & _).
  rewrite Hemit in Ho. simpl in Ho. rewrite Nat.add_0_r in Ho. done.
Qed.

Lemma Close_leaves_pipeline_witness :
  wired startedRabbus ∧ buf (emit startedRabbus) = [] ∧
  match run brokerUp [OpClose; OpEmit ordersCreated] startedRabbus
            startedWorld with
  | Ok (r', w') =>
      buf (emit r') = [] ∧
      closed (emit r') = closed (emit startedRabbus) ∧
      closed (emitErr r') = closed (emitErr startedRabbus) ∧
      closed (emitOk r') = closed (emitOk startedRabbus) ∧
      outcomes r' = S (outcomes startedRabbus)
  | Panic _ => Config.OnStateChange (config startedRabbus) = None
  end.
Proof.
  split; [exact startedWith_wired|]. split; [reflexivity|].
  exact (proj2 (Close_leaves_pipeline brokerUp ordersCreated startedRabbus
                  startedWorld startedWith_wired eq_refl)).
Defined.

(** ** The declaration cache within one publish *)

Lemma produce_declare_failed broker m r w reason :
  Message.Exchange m ∉ exDeclared r →
  declareAnswer broker m r w = Some reason →
  produce broker m r w
  = Ok (with_emitErr r (chanSend (AmqpError reason) (emitErr r)),
        logged w (EvExchangeDeclare (ch r) (Message.Exchange m)
                    (Message.Kind m) (Config.Durable (config r))
                    (Some reason))).
Proof.
  intros Hin Hans. unfold produce, ensureExchange.
  rewrite decide_False by done. unfold bind at 1 2.
  rewrite ExchangeDeclare_run. fold (declareAnswer broker m r w).
  by rewrite Hans.
Qed.

(** C7: when the exchange is not in the cache and the declare fails,
    [produce] sends the declare error on the error channel and changes
    nothing else, so the name is not recorded, and the next publish to
    the same exchange starts with a declare call again; a name that
    enters the cache during [produce] is the exchange of the message,
    and its declare call was answered with success. *)
Theorem declare_recorded_only_on_success
    (broker : Broker) (m : Message.t) (r : rabbus) (w : World) :
  wired r →
  (∀ reason,
     Message.Exchange m ∉ exDeclared r →
     declareAnswer broker m r w = Some reason →
     let r1 := with_emitErr r (chanSend (AmqpError reason) (emitErr r)) in
     produce broker m r w
     = Ok (r1, logged w (EvExchangeDeclare (ch r) (Message.Exchange m)
                           (Message.Kind m) (Config.Durable (config r))
                           (Some reason))) ∧
     exDeclared r1 = exDeclared r ∧
     ∀ m2 w2,
       Message.Exchange m2 = Message.Exchange m →
       match produce broker m2 r1 w2 with
       | Ok (_, w3) =>
           ∃ d, trace w3
                = trace w2
                  ++ EvExchangeDeclare (ch r) (Message.Exchange m)
                       (Message.Kind m2) (Config.Durable (config r))
                       (declareAnswer broker m2 r1 w2) :: d
       | Panic _ => Config.OnStateChange (config r) = None
       end) ∧
  (∀ r' w' x,
     produce broker m r w = Ok (r', w') →
     x ∈ exDeclared r' → x ∉ exDeclared r →
     x = Message.Exchange m ∧ declareAnswer broker m r w = None ∧
     EvExchangeDeclare (ch r) x (Message.Kind m)
       (Config.Durable (config r)) None ∈ trace w').
Proof.
  intros Hw. split.
  - intros reason Hin Hans r1.
    split; [by apply produce_declare_failed|]. split; [done|].
    intros m2 w2 Hex.
    assert (wired r1) as Hw1 by exact Hw.
    pose proof (produce_wp broker m2 r1 w2 (wired_observer r1 Hw1)) as H.
    unfold wp in H.
    destruct (produce broker m2 r1 w2) as [[r2 w3]|]; [|exact H].
    destruct H as (_ & _ & _ & HD).
    rewrite decide_False in HD by (rewrite Hex; exact Hin).
    rewrite <- Hex.
    destruct (declareAnswer broker m2 r1 w2) as [reason2|].
    + destruct HD as [_ ->]. by exists [].
    + destruct HD as [_ (d & Hd & _)]. exists d.
      rewrite Hd. unfold logged; simpl. by rewrite <- app_assoc.
  - intros r' w' x Hrun Hx Hnx.
    pose proof (wp_Ok _ _ _ _ _ _
                  (produce_wp broker m r w (wired_observer r Hw)) Hrun)
      as (_ & _ & _ & HD).
    case_decide as Hin.
    { destruct HD as [HE _]. by rewrite HE in Hx. }
    destruct (declareAnswer broker m r w) as [reason|].
    { destruct HD as [-> _]. done. }
    destruct HD as [HE (d & Hd & _)]. rewrite HE in Hx.
    assert (x = Message.Exchange m) as ->.
    { apply elem_of_union in Hx as [Hx|Hx]; [|done].
      by apply elem_of_singleton in Hx. }
    split; [done|]. split; [done|].
    rewrite Hd. unfold logged; simpl.
    apply elem_of_app; left. apply elem_of_app; right. left.
Qed.

Lemma declare_recorded_only_on_success_witness :
  wired startedRabbus ∧
  (Message.Exchange ordersCreated ∉ exDeclared startedRabbus) ∧
  declareAnswer brokerDeclareDown ordersCreated startedRabbus startedWorld
    = Some "access refused" ∧
  produce brokerDeclareDown ordersCreated startedRabbus startedWorld
  = Ok (with_emitErr startedRabbus
          (chanSend (AmqpError "access refused") (emitErr startedRabbus)),
        logged startedWorld
          (EvExchangeDeclare 1%nat "orders" "topic" true
             (Some "access refused"))).
Proof.
  split; [exact startedWith_wired|].
  assert (Message.Exchange ordersCreated ∉ exDeclared startedRabbus) as Hin.
  { vm_compute. set_solver. }
  split; [exact Hin|]. split; [reflexivity|].
  exact (proj1 (proj1 (declare_recorded_only_on_success brokerDeclareDown
                         ordersCreated startedRabbus startedWorld
                         startedWith_wired)
                  "access refused" Hin eq_refl)).
Defined.

(** ** Defaults and the exchange declare *)

Lemma applyDefaults_Exchange m :
  Message.Exchange (applyDefaults m) = Message.Exchange m.
Proof. unfold applyDefaults. by repeat case_match. Qed.

Lemma applyDefaults_Kind m :
  Message.Kind (applyDefaults m) = Message.Kind m.
Proof. unfold applyDefaults. by repeat case_match. Qed.

Lemma applyDefaults_Key m :
  Message.Key (applyDefaults m) = Message.Key m.
Proof. unfold applyDefaults. by repeat case_match. Qed.

Lemma applyDefaults_Payload m :
  Message.Payload (applyDefaults m) = Message.Payload m.
Proof. unfold applyDefaults. by repeat case_match. Qed.

Lemma applyDefaults_ContentType m :
  Message.ContentType (applyDefaults m)
  = (if decide (Message.ContentType m = "") then ContentTypeJSON
     else Message.ContentType m).
Proof. unfold applyDefaults. by repeat case_match. Qed.

Lemma applyDefaults_DeliveryMode m :
  Message.DeliveryMode (applyDefaults m)
  = (if Message.DeliveryMode m =? 0 then Persistent
     else Message.DeliveryMode m).
Proof.
  unfold applyDefaults.
  destruct (decide (Message.ContentType m = "")); simpl;
    by destruct (Message.DeliveryMode m =? 0).
Qed.

Lemma guardedEvent_publishesDefaults m chn e :
  guardedEvent (applyDefaults m) chn e → publishesDefaults m e.
Proof.
  destruct e; simpl; try done.
  intros (_ & _ & _ & Hct & _ & Hdm & _).
  rewrite Hct, Hdm, applyDefaults_ContentType, applyDefaults_DeliveryMode.
  split; [done|]. split; [done|]. split.
  - case_decide; [done|done].
  - destruct (Message.DeliveryMode m =? 0) eqn:E; [done|lia].
Qed.

(** [produceAt] is [produce] with the places added. *)
Lemma produceAt_produce broker m r w :
  produce broker m r w
  = match produceAt broker m r w with
    | Ok ((r', _), w') => Ok (r', w')
    | Panic msg => Panic msg
    end.
Proof.
  unfold produce, produceAt, ensureExchange, bind. case_decide.
  - simpl.
    by destruct (publishGuarded broker (applyDefaults m) r w) as [[r2 w2]|].
  - rewrite ExchangeDeclare_run. simpl.
    destruct (onExchangeDeclare broker (trace w) (ch r) (Message.Exchange m)
                (Message.Kind m) (Config.Durable (config r)))
      as [reason|]; simpl; [done|].
    by destruct (publishGuarded broker (applyDefaults m) _ _) as [[r2 w2]|].
Qed.

(** The retry helper makes its first attempt at once: whatever the
    number of attempts, the first event of the retried publish is a
    publish with the fields of the message as the closure holds them,
    stamped with the time of the call. *)
Lemma retryLoop_first broker m r sleep n w :
  ∃ e w1 res d,
    retryLoop n (publishOnce broker m r) sleep w = Ok (e, w1) ∧
    trace w1
    = trace w ++
      EvPublish (ch r) (Message.Exchange m) (Message.Key m)
        (Publishing.mk (Message.ContentType m) "UTF-8"
           (Message.DeliveryMode m) (clock w) (Message.Payload m)) res :: d.
Proof.
  set (p := Publishing.mk (Message.ContentType m) "UTF-8"
              (Message.DeliveryMode m) (clock w) (Message.Payload m)).
  set (res := onPublish broker (trace w) (ch r) (Message.Exchange m)
                (Message.Key m) p).
  set (ev := EvPublish (ch r) (Message.Exchange m) (Message.Key m) p res).
  assert (publishOnce broker m r w = Ok (toError res, logged w ev)) as Hfn
    by reflexivity.
  destruct n as [|n]; simpl; rewrite (bind_Ok _ _ _ _ _ Hfn).
  - destruct (toError res) as [err|]; eexists _, _, res, [];
      (split; reflexivity).
  - destruct (toError res) as [err|];
      [|eexists _, _, res, []; (split; reflexivity)].
    unfold bind at 1, timeSleep.
    pose proof (retryLoop_wp (guardedEvent m (ch r))
                  (publishOnce broker m r) sleep
                  (publishOnce_wp broker m r) I n
                  (mkWorld (trace (logged w ev) ++ [EvSleep sleep])
                     (clock (logged w ev) + Z.max 0 sleep))) as H.
    unfold wp in H.
    destruct (retryLoop n (publishOnce broker m r) sleep _)
      as [[e w2]|]; [|done].
    destruct H as (d & Hd & _). simpl in Hd.
    exists e, w2, res, (EvSleep sleep :: d). split; [reflexivity|].
    rewrite Hd. by rewrite <- !app_assoc.
Qed.

(** Under a closed breaker the request runs: the guarded publish starts
    with the call of the retry helper and the first publish attempt. *)
Lemma publishGuarded_closed_first broker m r w r' w' :
  onStateChange (breaker r) = Some (observer (config r)) →
  state (breaker r) = StateClosed →
  publishGuarded broker m r w = Ok (r', w') →
  ∃ res d,
    trace w'
    = trace w ++
      EvRetryDo (Config.Attempts (config r)) (Config.Sleep (config r)) ::
      EvPublish (ch r) (Message.Exchange m) (Message.Key m)
        (Publishing.mk (Message.ContentType m) "UTF-8"
           (Message.DeliveryMode m) (clock w) (Message.Payload m)) res :: d.
Proof.
  intros Hobs Hs H. unfold publishGuarded, Execute in H.
  destruct (beforeRequest_closed_any (breaker r) w Hs)
    as (g & cb1 & Hb & _ & HS1).
  rewrite bind_assoc, (bind_Ok _ _ _ _ _ Hb) in H.
  rewrite !bind_assoc in H. unfold retryDo in H. rewrite bind_assoc in H.
  unfold bind at 1, log in H.
  destruct (retryLoop_first broker m r (Config.Sleep (config r))
              (Z.to_nat (Config.Attempts (config r) - 1))
              (logged w (EvRetryDo (Config.Attempts (config r))
                           (Config.Sleep (config r)))))
    as (e & w1 & res & d & Hl & Ht).
  rewrite (bind_Ok _ _ _ _ _ Hl) in H.
  assert (onStateChange cb1 = Some (observer (config r))) as Hobs1.
  { destruct HS1 as (_&_&_&_&_&->). exact Hobs. }
  pose proof (afterRequest_wp (config r) isStateChange (λ _ X, X) cb1 g
                (bool_decide (e = None)) w1 Hobs1) as Ha.
  unfold wp in Ha.
  rewrite bind_assoc in H. apply bind_inv in H as (cb2 & w2 & Hafter & H).
  rewrite Hafter in Ha. destruct Ha as (_ & (d2 & Hd2 & _) & _).
  assert (w' = w2) as ->.
  { unfold bind, ret in H. destruct e; by inversion H. }
  exists res, (d ++ d2). rewrite Hd2, Ht. unfold logged; simpl.
  by rewrite <- !app_assoc.
Qed.




(** ** The declaration cache over the life of the façade *)

Lemma countIf_app f t1 t2 :
  countIf f (t1 ++ t2) = (countIf f t1 + countIf f t2)%nat.
Proof. unfold countIf. by rewrite List.filter_app, length_app. Qed.

Lemma countIf_none (P : Event → Prop) f d :
  (∀ e, P e → f e = false) → Forall P d → countIf f d = 0%nat.
Proof.
  intros HP. induction 1 as [|e d He _ IH]; [done|].
  unfold countIf in *. simpl. by rewrite (HP e He).
Qed.

Lemma countIf_ext (P : Event → Prop) f w w' :
  (∀ e, P e → f e = false) → ext P w w' →
  countIf f (trace w') = countIf f (trace w).
Proof.
  intros HP (d & -> & HF). rewrite countIf_app, (countIf_none P f d); auto.
Qed.

Lemma countIf_snoc f t e :
  countIf f (t ++ [e]) = (countIf f t + (if f e then 1 else 0))%nat.
Proof. rewrite countIf_app. unfold countIf; simpl. by destruct (f e). Qed.

Lemma countIf_logged f w e :
  countIf f (trace (logged w e))
  = (countIf f (trace w) + (if f e then 1 else 0))%nat.
Proof.
  unfold logged; simpl. rewrite countIf_app. unfold countIf; simpl.
  by destruct (f e).
Qed.

Lemma guardedEvent_notDeclare m chn e : guardedEvent m chn e → notDeclare e.
Proof. by destruct e. Qed.

Lemma notDeclare_isDeclareOf x e : notDeclare e → isDeclareOf x e = false.
Proof. by destruct e. Qed.

Lemma notDeclare_isOkDeclareOf x e : notDeclare e → isOkDeclareOf x e = false.
Proof. by destruct e. Qed.

Section CacheOverTime.

Variable broker : Broker.
Variable x : string.

Lemma cachePost_refl r w : wired r → cachePost x r w r w.
Proof. intros Hw. split; [exact Hw|]. by repeat split. Qed.

Lemma cachePost_trans r1 w1 r2 w2 r3 w3 :
  cachePost x r1 w1 r2 w2 → cachePost x r2 w2 r3 w3 →
  cachePost x r1 w1 r3 w3.
Proof.
  intros (W1 & C1 & S1 & D1 & O1 & T1) (W2 & C2 & S2 & D2 & O2 & T2).
  split; [done|]. split; [congruence|]. split; [set_solver|].
  split; [|split].
  - intros Hx. rewrite D2, D1; [done|done|]. by apply S1.
  - lia.
  - intros Hne. destruct (decide (state (breaker r2) = state (breaker r1))).
    + rewrite <- C1. apply T2. congruence.
    + by apply T1.
Qed.

(** A step that leaves the cache alone and logs no declare. *)
Lemma cachePost_frame r w r' w' :
  wired r' → config r' = config r → exDeclared r' = exDeclared r →
  state (breaker r') = state (breaker r) → ext notDeclare w w' →
  cachePost x r w r' w'.
Proof.
  intros Hw Hc He Hs HX. split; [done|]. split; [done|].
  split; [by rewrite He|]. split; [|split].
  - intros _. eapply countIf_ext; [|exact HX].
    apply notDeclare_isDeclareOf.
  - unfold missing. rewrite He.
    by rewrite (countIf_ext notDeclare _ w w'
                  (notDeclare_isOkDeclareOf x) HX).
  - by rewrite Hs.
Qed.

Lemma produce_cache m r w :
  wired r →
  wp (produce broker m r) (cachePost x r w)
     (Config.OnStateChange (config r) = None) w.
Proof.
  intros Hw.
  eapply wp_mono; [apply produce_wp, wired_observer, Hw| |done].
  intros r' w' (HF & _ & HC & HD).
  assert (wired r') as Hw' by by eapply wired_sameFacade.
  assert (config r' = config r) as Hc by apply HF.
  assert (∀ w0, ext (guardedEvent (applyDefaults m) (ch r)) w0 w' →
                ext notDeclare w0 w') as Hmono.
  { intros w0. apply ext_mono, guardedEvent_notDeclare. }
  split; [done|]. split; [done|].
  case_decide as Hin.
  { destruct HD as [HE HX]. apply Hmono in HX.
    split; [by rewrite HE|]. split; [|split; [|done]].
    - intros _.
      apply (countIf_ext notDeclare); [apply notDeclare_isDeclareOf|done].
    - unfold missing. rewrite HE.
      by rewrite (countIf_ext notDeclare _ w w'
                    (notDeclare_isOkDeclareOf x) HX). }
  destruct (declareAnswer broker m r w) as [reason|].
  { destruct HD as [-> ->]. split; [done|]. split; [|split; [|done]].
    - intros Hx. rewrite countIf_logged. simpl.
      rewrite bool_decide_false; [lia|]. intros <-. done.
    - rewrite countIf_logged. simpl. unfold missing; simpl. lia. }
  destruct HD as [HE HX]. apply Hmono in HX.
  split; [rewrite HE; apply union_subseteq_r|]. split; [|split; [|done]].
  - intros Hx.
    rewrite (countIf_ext notDeclare _ _ w' (notDeclare_isDeclareOf x) HX).
    rewrite countIf_logged. simpl.
    rewrite bool_decide_false; [lia|]. intros <-. done.
  - rewrite (countIf_ext notDeclare _ _ w' (notDeclare_isOkDeclareOf x) HX).
    rewrite countIf_logged. simpl. unfold missing. rewrite HE.
    destruct (decide (Message.Exchange m = x)) as [Heq|Hne].
    + rewrite bool_decide_true by done.
      rewrite decide_True
        by (apply elem_of_union_l, elem_of_singleton; congruence).
      rewrite (decide_False (P := x ∈ exDeclared r)) by congruence. lia.
    + rewrite bool_decide_false by done.
      destruct (decide (x ∈ exDeclared r)) as [Hx|Hx].
      * rewrite decide_True by by apply elem_of_union_r. lia.
      * rewrite decide_False; [lia|].
        rewrite elem_of_union, elem_of_singleton. intros [?|?]; congruence.
Qed.

Lemma registerLoop_cache ms : ∀ r w,
  wired r →
  wp (registerLoop broker ms r) (cachePost x r w)
     (Config.OnStateChange (config r) = None) w.
Proof.
  induction ms as [|m ms IH]; intros r w Hw; simpl.
  - by apply wp_ret, cachePost_refl.
  - apply wp_bind. eapply wp_mono; [by apply produce_cache| |done].
    intros r1 w1 H1.
    assert (config r1 = config r) as Hc by apply H1.
    eapply wp_mono; [apply IH, H1| |by rewrite Hc].
    intros r2 w2 H2. by eapply cachePost_trans.
Qed.

Lemma amqpDial_wp dsn w :
  wp (amqpDial broker dsn) (λ _ w', ext notDeclare w w') False w.
Proof. unfold wp. simpl. by apply (ext_logged notDeclare w). Qed.

Lemma connChannel_wp cn w :
  wp (connChannel broker cn) (λ _ w', ext notDeclare w w') False w.
Proof. unfold wp. simpl. by apply (ext_logged notDeclare w). Qed.

Lemma dial_events_wp fuel dsn r : ∀ w,
  wp (reconnectLoop broker fuel dsn r)
     (λ o w', ext notDeclare w w' ∧
              (o = None ∨ ∃ cn chn, o = Some (with_handles r cn chn)))
     False w.
Proof.
  induction fuel as [|fuel IH]; intros w; simpl.
  - apply wp_ret. split; [apply ext_refl|by left].
  - apply wp_bind. unfold timeSleep, wp at 1.
    set (w1 := mkWorld _ _).
    assert (ext notDeclare w w1) as HX1.
    { exists [EvSleep (2 * second)]. split; [done|]. by repeat constructor. }
    apply wp_bind. eapply wp_mono; [apply amqpDial_wp| |done].
    intros [err|cn] w2 HX2; simpl.
    { eapply wp_mono; [apply IH| |done].
      intros o w' [HX Ho]. split; [|done].
      eapply ext_trans; [exact HX1|]. by eapply ext_trans. }
    apply wp_bind. eapply wp_mono; [apply connChannel_wp| |done].
    intros [err|chn] w3 HX3; simpl.
    { eapply wp_mono; [apply IH| |done].
      intros o w' [HX Ho]. split; [|done].
      eapply ext_trans; [exact HX1|]. eapply ext_trans; [exact HX2|].
      by eapply ext_trans. }
    apply wp_ret. split.
    + eapply ext_trans; [exact HX1|]. by eapply ext_trans.
    + right. by exists cn, chn.
Qed.

Lemma step_cache o r w :
  wired r →
  wp (step broker o r) (cachePost x r w)
     (Config.OnStateChange (config r) = None) w.
Proof.
  intros Hw. destruct o as [m|reason fuel| |d]; simpl.
  - unfold register. simpl.
    eapply wp_mono; [apply registerLoop_cache; exact Hw| |done].
    intros r' w' H. exact H.
  - apply wp_bind.
    eapply wp_mono; [apply dial_events_wp| |done].
    intros o w' [HX Ho]. apply wp_ret.
    destruct Ho as [->|(cn & chn & ->)]; simpl;
      by apply cachePost_frame.
  - unfold Close, channelClose, connectionClose, wp, bind, log, ret. simpl.
    apply cachePost_frame; try done.
    exists [EvChannelClose (ch r); EvConnectionClose (conn r)].
    split; [simpl; by rewrite <- app_assoc|]. by repeat constructor.
  - unfold wp, bind, elapse, ret. simpl.
    apply cachePost_frame; try done. exists []. simpl.
    split; [by rewrite app_nil_r|constructor].
Qed.

Lemma run_cache ops : ∀ r w,
  wired r →
  wp (run broker ops r) (cachePost x r w)
     (Config.OnStateChange (config r) = None) w.
Proof.
  induction ops as [|o ops IH]; intros r w Hw; simpl.
  - by apply wp_ret, cachePost_refl.
  - apply wp_bind. eapply wp_mono; [by apply step_cache| |done].
    intros r1 w1 H1.
    assert (config r1 = config r) as Hc by apply H1.
    eapply wp_mono; [apply IH, H1| |by rewrite Hc].
    intros r2 w2 H2. by eapply cachePost_trans.
Qed.

End CacheOverTime.

Lemma notifyClose_first_round broker fuel dsn reason r w cn chn :
  let w1 := logged w (EvSleep (2 * second)) in
  let w2 := logged w1 (EvDial dsn (inr cn)) in
  onDial broker (trace w1) dsn = inr cn →
  onChannel broker (trace w2) cn = inr chn →
  notifyClose broker (S fuel) dsn (Some reason) r w
  = Ok (Some (with_handles r cn chn),
        mkWorld (trace w ++ [EvSleep (2 * second); EvDial dsn (inr cn);
                             EvChannel cn (inr chn)])
                (clock w + 2 * second)).
Proof.
  intros w1 w2 Hd Hc. subst w1 w2. unfold logged in *. simpl in *.
  unfold bind, timeSleep, amqpDial, connChannel, getTrace, log, ret. simpl.
  rewrite Hd. simpl. rewrite Hc. simpl.
  rewrite <- !app_assoc. simpl. reflexivity.
Qed.

(** C3 (as the code has it): the cache lives as long as the façade.
    Over any sequence of publishes, reconnections, closes and pauses the
    cache only grows; a name in the cache sees no further declare from
    the publish path, on any channel; a name not in the cache gets at
    most one successful declare.  When [notifyClose] replaces the
    connection and the channel it changes nothing but the two handles:
    the cache is kept as it is and no exchange is declared.  A broker
    that accepts the first dial and channel-open makes the swap happen in
    the first round of the loop. *)
Theorem cache_outlives_channel
    (broker : Broker) (ops : list Op) (x : string) (r : rabbus) (w : World) :
  wired r →
  match run broker ops r w with
  | Ok (r', w') =>
      exDeclared r ⊆ exDeclared r' ∧
      (x ∈ exDeclared r →
       countIf (isDeclareOf x) (trace w')
       = countIf (isDeclareOf x) (trace w)) ∧
      (countIf (isOkDeclareOf x) (trace w')
       ≤ countIf (isOkDeclareOf x) (trace w) + missing x r)%nat
  | Panic _ => Config.OnStateChange (config r) = None
  end ∧
  (∀ fuel dsn note,
     match notifyClose broker fuel dsn note r w with
     | Ok (Some r', w') =>
         r' = with_handles r (conn r') (ch r') ∧
         exDeclared r' = exDeclared r ∧
         countIf (isDeclareOf x) (trace w')
         = countIf (isDeclareOf x) (trace w)
     | Ok (None, _) => True
     | Panic _ => False
     end) ∧
  (∀ fuel dsn reason cn chn,
     onDial broker (trace w ++ [EvSleep (2 * second)]) dsn = inr cn →
     onChannel broker (trace w ++ [EvSleep (2 * second)]
                               ++ [EvDial dsn (inr cn)]) cn = inr chn →
     ∃ w', notifyClose broker (S fuel) dsn (Some reason) r w
           = Ok (Some (with_handles r cn chn), w')).
Proof.
  intros Hw. split; [|split].
  - pose proof (run_cache broker x ops r w Hw) as H. unfold wp in H.
    destruct (run broker ops r w) as [[r' w']|]; [|exact H].
    destruct H as (_ & _ & HS & HD & HO & _).
    split; [done|]. split; [done|]. lia.
  - intros fuel dsn [reason|]; simpl.
    + pose proof (dial_events_wp broker fuel dsn r w) as H. unfold wp in H.
      destruct (reconnectLoop broker fuel dsn r w) as [[[r'|] w']|];
        [|done|done].
      destruct H as [HX [?|(cn & chn & [= ->])]]; [done|].
      split; [done|]. split; [done|].
      by apply (countIf_ext notDeclare), HX; [apply notDeclare_isDeclareOf].
    + by destruct r.
  - intros fuel dsn reason cn chn Hd Hc. eexists.
    apply notifyClose_first_round; unfold logged; simpl.
    + exact Hd.
    + by rewrite <- app_assoc.
Qed.

Lemma cache_outlives_channel_witness :
  wired startedRabbus ∧
  match run brokerUp [OpEmit ordersCreated; OpConnectionLost "EOF" 1;
                      OpEmit ordersCreated] startedRabbus startedWorld with
  | Ok (r', w') =>
      exDeclared startedRabbus ⊆ exDeclared r' ∧
      ("orders" ∈ exDeclared startedRabbus →
       countIf (isDeclareOf "orders") (trace w')
       = countIf (isDeclareOf "orders") (trace startedWorld)) ∧
      (countIf (isOkDeclareOf "orders") (trace w')
       ≤ countIf (isOkDeclareOf "orders") (trace startedWorld)
         + missing "orders" startedRabbus)%nat
  | Panic _ => Config.OnStateChange (config startedRabbus) = None
  end.
Proof.
  pose proof (cache_outlives_channel brokerUp
                [OpEmit ordersCreated; OpConnectionLost "EOF" 1;
                 OpEmit ordersCreated] "orders" startedRabbus startedWorld
                startedWith_wired) as H.
  apply proj1 in H. split.
  - exact startedWith_wired.
  - exact H.
Defined.

(** C3 as stated fails: after a publish to "orders" the connection is
    lost and the watcher installs a new channel; the cache still holds
    "orders", and the next publish to "orders" goes out on the new
    channel without any declare on it. *)
Lemma stale_cache_after_reconnect :
  match run brokerUp [OpEmit ordersCreated; OpConnectionLost "EOF" 1]
            startedRabbus startedWorld with
  | Ok (r1, w1) =>
      ch r1 ≠ ch startedRabbus ∧
      bool_decide ("orders" ∈ exDeclared r1) = true ∧
      match step brokerUp (OpEmit ordersCreated) r1 w1 with
      | Ok (r2, w2) =>
          countIf (isDeclareOn (ch r1) "orders") (trace w2) = 0%nat ∧
          countIf isPublish (trace w2) = 2%nat ∧
          buf (emitOk r2) = [tt; tt]
      | Panic _ => False
      end
  | Panic _ => False
  end.
Proof. vm_compute. repeat split; discriminate. Qed.

(** ** The breaker while the broker refuses every publish *)

Lemma beforeRequest_closed cb w :
  state cb = StateClosed → expiry cb = None →
  beforeRequest cb w
  = Ok ((inr (generation cb),
         cb_setCounts cb (counts_onRequest (counts cb))), w).
Proof.
  intros Hs He. unfold beforeRequest, bind, timeNow, currentState.
  rewrite Hs, He. simpl. by rewrite Hs.
Qed.

Lemma afterRequest_closed_failure cb w :
  state cb = StateClosed → expiry cb = None →
  afterRequest cb (generation cb) false w
  = onFailure cb StateClosed (clock w) w.
Proof.
  intros Hs He. unfold afterRequest, bind, timeNow, currentState.
  rewrite Hs, He. simpl. rewrite decide_True by done. by rewrite Hs.
Qed.

Lemma Execute_closed_failure cb (req : M (option error)) w e w1 :
  state cb = StateClosed → expiry cb = None →
  req w = Ok (Some e, w1) →
  Execute cb req w
  = bind (onFailure (cb_setCounts cb (counts_onRequest (counts cb)))
                    StateClosed (clock w1))
         (λ cb2, ret (Some e, cb2)) w1.
Proof.
  intros Hs He Hreq. unfold Execute.
  rewrite (bind_Ok _ _ _ _ _ (beforeRequest_closed cb w Hs He)).
  rewrite (bind_Ok _ _ _ _ _ Hreq).
  unfold bind at 1.
  replace (bool_decide (Some e = None)) with false
    by (symmetry; by apply bool_decide_eq_false).
  change (generation cb)
    with (generation (cb_setCounts cb (counts_onRequest (counts cb)))).
  by rewrite afterRequest_closed_failure.
Qed.

Lemma Execute_open cb (req : M (option error)) w t :
  state cb = StateOpen → expiry cb = Some t → clock w ≤ t →
  Execute cb req w = Ok ((Some ErrOpenState, cb), w).
Proof.
  intros Hs He Ht.
  unfold Execute, bind, beforeRequest, bind, timeNow, currentState.
  rewrite Hs, He. simpl.
  replace (t <? clock w) with false by (symmetry; apply Z.ltb_ge; lia).
  simpl. by rewrite Hs.
Qed.

Section PublishRefused.

Variable broker : Broker.
Hypothesis publish_refused :
  ∀ t chn ex key p, onPublish broker t chn ex key p ≠ None.

Lemma publishOnce_refused m r w :
  ∃ reason,
    publishOnce broker m r w
    = Ok (Some (AmqpError reason),
          logged w (EvPublish (ch r) (Message.Exchange m) (Message.Key m)
                      (Publishing.mk (Message.ContentType m) "UTF-8"
                         (Message.DeliveryMode m) (clock w)
                         (Message.Payload m))
                      (Some reason))).
Proof.
  unfold publishOnce, bind, timeNow. rewrite Publish_run.
  destruct (onPublish broker (trace w) (ch r) (Message.Exchange m)
              (Message.Key m) _) as [reason|] eqn:E.
  - by exists reason.
  - by apply publish_refused in E.
Qed.

Lemma retryLoop_refused m r sleep n : ∀ w,
  ∃ reason w1,
    retryLoop n (publishOnce broker m r) sleep w
    = Ok (Some (AmqpError reason), w1) ∧
    countIf isRetryDo (trace w1) = countIf isRetryDo (trace w).
Proof.
  induction n as [|n IH]; intros w; simpl;
    destruct (publishOnce_refused m r w) as (reason & Hp);
    rewrite (bind_Ok _ _ _ _ _ Hp).
  - exists reason. eexists. split; [reflexivity|].
    unfold logged; simpl. rewrite countIf_snoc. simpl. lia.
  - unfold bind at 1, timeSleep at 1.
    match goal with
    | |- context [retryLoop n _ sleep ?w2] =>
        destruct (IH w2) as (reason2 & w3 & -> & Hc)
    end.
    exists reason2, w3. split; [done|]. rewrite Hc.
    unfold logged; simpl. rewrite !countIf_snoc. simpl. lia.
Qed.

Lemma retryDo_refused m r attempts sleep w :
  ∃ reason w1,
    retryDo (publishOnce broker m r) attempts sleep w
    = Ok (Some (AmqpError reason), w1) ∧
    countIf isRetryDo (trace w1) = S (countIf isRetryDo (trace w)).
Proof.
  unfold retryDo, bind at 1, log at 1.
  match goal with
  | |- context [retryLoop ?n _ sleep ?w0] =>
      destruct (retryLoop_refused m r sleep n w0) as (reason & w1 & -> & Hc)
  end.
  exists reason, w1. split; [done|]. rewrite Hc. simpl.
  rewrite countIf_snoc. simpl. lia.
Qed.

End PublishRefused.

Lemma Execute_closed_refused cb (req : M (option error)) w e w1 c f k :
  state cb = StateClosed → expiry cb = None →
  readyToTrip cb = tripsAbove c → onStateChange cb = Some (observer c) →
  Config.OnStateChange c = Some f →
  ConsecutiveFailures (counts cb) = k → 0 ≤ k → k + 1 < 2 ^ 32 →
  req w = Ok (Some e, w1) →
  ∃ cb' w',
    Execute cb req w = Ok ((Some e, cb'), w') ∧ sameSettings cb cb' ∧
    if Config.Threshold c <? k + 1
    then state cb' = StateOpen ∧
         expiry cb' = Some (clock w' + timeout cb) ∧
         w' = logged w1 (EvOnStateChange f (name cb) "closed" "open")
    else state cb' = StateClosed ∧ expiry cb' = None ∧
         ConsecutiveFailures (counts cb') = k + 1 ∧ w' = w1.
Proof.
  intros Hs He Hrt Hobs Hf Hk Hk0 Hk1 Hreq.
  rewrite (Execute_closed_failure cb req w e w1 Hs He Hreq).
  unfold onFailure, bind. simpl. rewrite Hrt. unfold tripsAbove. simpl.
  rewrite Hk. unfold wrap32. rewrite Z.mod_small by lia.
  destruct (Config.Threshold c <? k + 1) eqn:Etrip.
  - unfold setState. simpl. rewrite Hs.
    rewrite decide_False by discriminate. rewrite Hobs.
    unfold observer, callOnStateChange, bind. rewrite Hf. simpl.
    eexists _, _. split; [reflexivity|]. split; [by repeat split|].
    simpl. done.
  - simpl. eexists _, _. split; [reflexivity|]. split; [by repeat split|].
    simpl. rewrite Hk. unfold wrap32. rewrite Z.mod_small by lia. done.
Qed.

Section BreakerTrips.

Variable broker : Broker.
Hypothesis publish_refused :
  ∀ t chn ex key p, onPublish broker t chn ex key p ≠ None.
Hypothesis declare_accepted :
  ∀ t chn ex kind durable,
    onExchangeDeclare broker t chn ex kind durable = None.

Lemma ensureExchange_accepted m r w :
  ∃ s w1,
    ensureExchange broker m r w = Ok ((None, with_exDeclared r s), w1) ∧
    clock w1 = clock w ∧
    countIf isRetryDo (trace w1) = countIf isRetryDo (trace w) ∧
    countIf isPublish (trace w1) = countIf isPublish (trace w).
Proof.
  unfold ensureExchange. case_decide.
  - exists (exDeclared r), w. by destruct r.
  - unfold bind. rewrite ExchangeDeclare_run, declare_accepted. simpl.
    eexists _, _. split; [reflexivity|]. unfold logged; simpl.
    rewrite !countIf_snoc. simpl. split; [done|]. split; lia.
Qed.

Lemma produce_closed_failure c f m r w k :
  closedWith c k r → Config.OnStateChange c = Some f →
  0 ≤ k → k + 1 < 2 ^ 32 →
  ∃ r' w',
    produce broker m r w = Ok (r', w') ∧ failuresPost r w 1 r' w' ∧
    if Config.Threshold c <? k + 1
    then openSince c r' w' ∧
         last (trace w') = Some (EvOnStateChange f "Rabbus" "closed" "open")
    else closedWith c (k + 1) r'.
Proof.
  intros (Hw & Hc & Hemit & Hst & Hexp & Hk) Hf Hk0 Hk1.
  destruct (ensureExchange_accepted m r w) as (s & w1 & He & Hcl & Hcr & _).
  unfold produce. rewrite (bind_Ok _ _ _ _ _ He). cbv beta iota.
  unfold publishGuarded.
  destruct (retryDo_refused broker publish_refused (applyDefaults m)
              (with_exDeclared r s)
              (Config.Attempts (config (with_exDeclared r s)))
              (Config.Sleep (config (with_exDeclared r s))) w1)
    as (reason & w2 & Hreq & Hcnt).
  destruct Hw as (Hn & Hmr & Hiv & Hto & Hrt & Hobs).
  assert (readyToTrip (breaker r) = tripsAbove c) as Hrt'
    by by rewrite <- Hc.
  assert (onStateChange (breaker r) = Some (observer c)) as Hobs'
    by by rewrite <- Hc.
  destruct (Execute_closed_refused _ _ _ _ _ c f k Hst Hexp Hrt' Hobs' Hf Hk
              Hk0 Hk1 Hreq) as (cb' & w' & HE & HS & Hcase).
  rewrite (bind_Ok _ _ _ _ _ HE). cbv beta iota.
  eexists _, _. split; [reflexivity|].
  destruct HS as (Sn & Smr & Siv & Sto & Srt & Sobs). simpl in *.
  split.
  { split; [|split; [done|]].
    - destruct (Config.Threshold c <? k + 1).
      + destruct Hcase as (_ & _ & ->). unfold logged; simpl.
        rewrite countIf_snoc. simpl. lia.
      + destruct Hcase as (_ & _ & _ & ->). lia.
    - exists [AmqpError reason]. split; [done|]. split; [done|].
      constructor; [by exists reason|constructor]. }
  assert (wired (with_emitErr (with_breaker (with_exDeclared r s) cb')
                   (chanSend (AmqpError reason) (emitErr r)))) as Hw'.
  { unfold wired; simpl. repeat split; congruence. }
  destruct (Config.Threshold c <? k + 1).
  - destruct Hcase as (Hso & Heo & ->). split.
    + split; [exact Hw'|]. repeat split; try done.
      simpl. by rewrite Heo, Sto.
    + unfold logged; simpl. by rewrite last_snoc, Hn.
  - destruct Hcase as (Hsc & Hec & Hkc & ->).
    split; [exact Hw'|]. by repeat split.
Qed.

Lemma produce_rejected c m r w t :
  wired r → config r = c → buf (emit r) = [] →
  state (breaker r) = StateOpen → expiry (breaker r) = Some t →
  clock w ≤ t →
  ∃ r' w',
    produce broker m r w = Ok (r', w') ∧
    emitErr r' = chanSend ErrOpenState (emitErr r) ∧ emitOk r' = emitOk r ∧
    breaker r' = breaker r ∧
    countIf isRetryDo (trace w') = countIf isRetryDo (trace w) ∧
    countIf isPublish (trace w') = countIf isPublish (trace w).
Proof.
  intros Hw Hc Hemit Hst Hexp Ht.
  destruct (ensureExchange_accepted m r w) as (s & w1 & He & Hcl & Hcr & Hcp).
  unfold produce. rewrite (bind_Ok _ _ _ _ _ He). cbv beta iota.
  unfold publishGuarded.
  assert (clock w1 ≤ t) as Ht1 by lia.
  rewrite (bind_Ok _ _ _ _ _
             (Execute_open (breaker (with_exDeclared r s)) _ w1 t Hst Hexp
                           Ht1)).
  cbv beta iota. eexists _, _. split; [reflexivity|]. simpl.
  by repeat split.
Qed.

Lemma step_emit_idle m r w :
  buf (emit r) = [] → step broker (OpEmit m) r w = produce broker m r w.
Proof.
  intros Hemit. destruct r as [cn chn cb [b cp cl] ee eo cfg exd].
  simpl in Hemit. subst b. unfold step, register. simpl.
  unfold with_emit, chanDrain, chanSend. simpl. apply bind_ret_r.
Qed.

Lemma run_app ops1 ops2 : ∀ r w,
  run broker (ops1 ++ ops2) r w
  = bind (run broker ops1 r) (run broker ops2) w.
Proof.
  induction ops1 as [|o ops1 IH]; intros r w.
  - reflexivity.
  - simpl. rewrite bind_assoc. unfold bind at 1 2.
    destruct (step broker o r w) as [[r1 w1]|]; [|reflexivity].
    apply IH.
Qed.

Lemma failuresPost_refl r w : failuresPost r w 0 r w.
Proof.
  split; [lia|]. split; [done|]. exists []. by rewrite app_nil_r.
Qed.

Lemma failuresPost_trans r1 w1 n1 r2 w2 n2 r3 w3 :
  failuresPost r1 w1 n1 r2 w2 → failuresPost r2 w2 n2 r3 w3 →
  failuresPost r1 w1 (n1 + n2) r3 w3.
Proof.
  intros (C1 & O1 & e1 & B1 & L1 & F1) (C2 & O2 & e2 & B2 & L2 & F2).
  split; [lia|]. split; [congruence|]. exists (e1 ++ e2).
  split; [by rewrite B2, B1, app_assoc|].
  split; [rewrite length_app; lia|by apply Forall_app].
Qed.

(** While the count stays at or below the threshold every refused
    publish is counted and the breaker stays closed. *)
Lemma run_failures_closed c f ms : ∀ r w k,
  closedWith c k r → Config.OnStateChange c = Some f →
  0 ≤ k → k + Z.of_nat (length ms) ≤ Config.Threshold c →
  Config.Threshold c < 2 ^ 32 - 1 →
  ∃ r' w',
    run broker (map OpEmit ms) r w = Ok (r', w') ∧
    failuresPost r w (length ms) r' w' ∧
    closedWith c (k + Z.of_nat (length ms)) r'.
Proof.
  induction ms as [|m ms IH]; intros r w k Hcl Hf Hk0 Hk1 HT; simpl.
  - exists r, w. split; [done|]. split; [apply failuresPost_refl|].
    by rewrite Z.add_0_r.
  - simpl length in Hk1.
    destruct (produce_closed_failure c f m r w k Hcl Hf Hk0)
      as (r1 & w1 & Hp & HF1 & Hcase); [lia|].
    replace (Config.Threshold c <? k + 1) with false in Hcase
      by (symmetry; apply Z.ltb_ge; lia).
    assert (buf (emit r) = []) as Hemit by apply Hcl.
    rewrite <- (step_emit_idle m r w Hemit) in Hp.
    rewrite (bind_Ok _ _ _ _ _ Hp).
    destruct (IH r1 w1 (k + 1) Hcase Hf) as (r2 & w2 & Hr & HF2 & Hcl2);
      [lia|lia|done|].
    exists r2, w2. split; [done|]. split.
    + by apply (failuresPost_trans r w 1 r1 w1 (length ms) r2 w2).
    + replace (k + Z.of_nat (S (length ms)))
        with (k + 1 + Z.of_nat (length ms)) by lia. done.
Qed.

End BreakerTrips.

Lemma effective_OnStateChange c :
  Config.OnStateChange (effective c) = Config.OnStateChange c.
Proof. unfold effective. by destruct (Config.Threshold c =? 0). Qed.

Lemma effective_Threshold c :
  Config.Threshold (effective c)
  = (if Config.Threshold c =? 0 then 5 else Config.Threshold c).
Proof. unfold effective. by destruct (Config.Threshold c =? 0). Qed.

(** The trip rule of line 131, [ConsecutiveFailures > Threshold], over
    the pipeline.  For a façade built by [NewRabbus] with a clearing
    interval of 0 (the counts are never cleared while closed) and a
    non-nil [OnStateChange], with threshold [T] (5 when configured as 0)
    and a broker that accepts every declare and refuses every publish:
    the breaker is still closed after [T] failed messages, each of which
    went through the retry helper and ended in the broker's error; it
    opens, calling the observer with "closed" and "open", immediately
    after failed message [T + 1]; the message after that, taken within
    the open-state timeout, is rejected with the breaker-open error and
    neither the retry helper nor a publish is invoked for it.  The
    breaker therefore opens one failure later than the documentation of
    [Config.Threshold] (lines 55-57) announces. *)
Theorem breaker_opens_above_threshold
    (broker : Broker) (c : Config.t) (f : FuncRef) (w0 w1 : World)
    (r0 : rabbus) (ms : list Message.t) :
  (∀ t chn ex key p, onPublish broker t chn ex key p ≠ None) →
  (∀ t chn ex kind durable,
     onExchangeDeclare broker t chn ex kind durable = None) →
  NewRabbus broker c w0 = Ok (inr r0, w1) →
  Config.Interval c = 0 → Config.OnStateChange c = Some f →
  0 ≤ Config.Threshold c < 2 ^ 32 - 1 →
  let T := if Config.Threshold c =? 0 then 5 else Config.Threshold c in
  (Z.of_nat (length ms) ≤ T →
   ∃ r w,
     run broker (map OpEmit ms) r0 w1 = Ok (r, w) ∧
     state (breaker r) = StateClosed ∧
     ConsecutiveFailures (counts (breaker r)) = Z.of_nat (length ms) ∧
     failuresPost r0 w1 (length ms) r w) ∧
  (Z.of_nat (length ms) = T + 1 →
   ∃ r w,
     run broker (map OpEmit ms) r0 w1 = Ok (r, w) ∧
     state (breaker r) = StateOpen ∧
     last (trace w) = Some (EvOnStateChange f "Rabbus" "closed" "open") ∧
     failuresPost r0 w1 (length ms) r w ∧
     ∀ m d,
       0 ≤ d ≤ timeout (breaker r) →
       ∃ r' w',
         run broker [OpElapse d; OpEmit m] r w = Ok (r', w') ∧
         emitErr r' = chanSend ErrOpenState (emitErr r) ∧
         emitOk r' = emitOk r ∧
         state (breaker r') = StateOpen ∧
         countIf isRetryDo (trace w') = countIf isRetryDo (trace w) ∧
         countIf isPublish (trace w') = countIf isPublish (trace w)).
Proof.
  intros Hpub Hdecl Hnew Hiv Hf HT T.
  destruct (NewRabbus_started broker c w0 r0 w1 Hnew)
    as (Hw & Hc & Hst & Hcnt & Hexp & _ & Hemit & _).
  rewrite Hiv in Hexp. simpl in Hexp.
  assert (closedWith (effective c) 0 r0) as Hcl0.
  { split; [exact Hw|]. split; [exact Hc|]. split; [exact Hemit|].
    split; [exact Hst|]. split; [exact Hexp|]. rewrite Hcnt. reflexivity. }
  assert (Config.OnStateChange (effective c) = Some f) as Hf'
    by by rewrite effective_OnStateChange.
  assert (Config.Threshold (effective c) = T) as HTe
    by apply effective_Threshold.
  assert (0 < T < 2 ^ 32 - 1) as HTr.
  { subst T. destruct (Config.Threshold c =? 0) eqn:E; [lia|].
    apply Z.eqb_neq in E. lia. }
  split.
  - intros Hlen.
    destruct (run_failures_closed broker Hpub Hdecl (effective c) f ms r0 w1 0
                Hcl0 Hf') as (r & w & Hrun & HF & Hcl); [lia|lia|lia|].
    exists r, w. split; [done|].
    destruct Hcl as (_ & _ & _ & Hs & _ & Hk).
    split; [exact Hs|]. split; [lia|exact HF].
  - intros Hlen.
    destruct ms as [|m0 ms0] using rev_ind; [simpl in Hlen; lia|].
    clear IHms0. rewrite length_app in Hlen. simpl in Hlen.
    destruct (run_failures_closed broker Hpub Hdecl (effective c) f ms0 r0 w1
                0 Hcl0 Hf') as (r1 & w2 & Hrun & HF & Hcl); [lia|lia|lia|].
    destruct (produce_closed_failure broker Hpub Hdecl (effective c) f m0 r1
                w2 _ Hcl Hf') as (r & w & Hp & HF1 & Hcase); [lia|lia|].
    replace (Config.Threshold (effective c) <? 0 + Z.of_nat (length ms0) + 1)
      with true in Hcase by (symmetry; apply Z.ltb_lt; lia).
    destruct Hcase as [(Hwr & Hcr & Her & Hsr & Hxr) Hlast].
    exists r, w.
    assert (buf (emit r1) = []) as Hemit1 by apply Hcl.
    rewrite <- (step_emit_idle broker m0 r1 w2 Hemit1) in Hp.
    split.
    { rewrite map_app, run_app. rewrite (bind_Ok _ _ _ _ _ Hrun). simpl.
      by rewrite (bind_Ok _ _ _ _ _ Hp). }
    split; [done|]. split; [done|]. split.
    { rewrite length_app. simpl.
      by apply (failuresPost_trans r0 w1 _ r1 w2 1 r w). }
    intros m d Hd.
    set (we := mkWorld (trace w) (clock w + Z.max 0 d)).
    destruct (produce_rejected broker Hdecl (effective c) m r we
                (clock w + timeout (breaker r)) Hwr Hcr Her Hsr Hxr)
      as (r' & w' & Hp' & He' & Ho' & Hb' & Hcr' & Hcp').
    { subst we. simpl. lia. }
    exists r', w'. split.
    { change (run broker [OpElapse d; OpEmit m] r w)
        with (bind (step broker (OpEmit m) r) (λ r2, ret r2) we).
      by rewrite bind_ret_r, (step_emit_idle broker m r we Her). }
    split; [done|]. split; [done|]. split; [by rewrite Hb'|]. done.
Qed.

Lemma breaker_opens_above_threshold_witness :
  ∃ r w,
    run brokerPublishDown
        (map OpEmit [ordersCreated; ordersCreated; ordersCreated])
        refusedRabbus refusedWorld = Ok (r, w) ∧
    state (breaker r) = StateOpen ∧
    last (trace w) = Some (EvOnStateChange 7%nat "Rabbus" "closed" "open") ∧
    failuresPost refusedRabbus refusedWorld 3 r w ∧
    ∀ m d,
      0 ≤ d ≤ timeout (breaker r) →
      ∃ r' w',
        run brokerPublishDown [OpElapse d; OpEmit m] r w = Ok (r', w') ∧
        emitErr r' = chanSend ErrOpenState (emitErr r) ∧
        emitOk r' = emitOk r ∧
        state (breaker r') = StateOpen ∧
        countIf isRetryDo (trace w') = countIf isRetryDo (trace w) ∧
        countIf isPublish (trace w') = countIf isPublish (trace w).
Proof.
  assert (∀ t chn ex key p,
            onPublish brokerPublishDown t chn ex key p ≠ None) as Hpub
    by (intros; discriminate).
  assert (∀ t chn ex kind durable,
            onExchangeDeclare brokerPublishDown t chn ex kind durable = None)
    as Hdecl by reflexivity.
  assert (0 ≤ Config.Threshold (configWith 2 (Some 7%nat)) < 2 ^ 32 - 1)
    as Hrange by (split; [discriminate|reflexivity]).
  pose proof (breaker_opens_above_threshold brokerPublishDown
                (configWith 2 (Some 7%nat)) 7%nat world0 refusedWorld
                refusedRabbus [ordersCreated; ordersCreated; ordersCreated]
                Hpub Hdecl eq_refl eq_refl eq_refl Hrange) as H.
  cbv zeta in H. apply proj2 in H. exact (H eq_refl).
Defined.

(** C1: the code at the claim's scenario.  The threshold is 2, the
    documentation of [Config.Threshold] (lines 55-57) says that calls stop
    once the threshold of failures has been reached, and the broker
    refuses every publish.  The code compares with a strict [>] (line
    131): the breaker is still closed after the 2nd failed message, and
    the 3rd message goes through the retry helper (three calls of it in
    all) and a publish attempt and ends, like the first two, in the
    broker's error and not in the breaker-open error; the breaker is
    open only after this 3rd failure. *)
Lemma breaker_closed_after_two_failures :
  match run brokerPublishDown [OpEmit ordersCreated; OpEmit ordersCreated]
            refusedRabbus refusedWorld with
  | Ok (r2, w2) =>
      state (breaker r2) = StateClosed ∧
      countIf isRetryDo (trace w2) = 2%nat ∧
      match step brokerPublishDown (OpEmit ordersCreated) r2 w2 with
      | Ok (r3, w3) =>
          state (breaker r3) = StateOpen ∧
          countIf isRetryDo (trace w3) = 3%nat ∧
          countIf isPublish (trace w3) = 3%nat ∧
          buf (emitErr r3)
          = [AmqpError "connection reset"; AmqpError "connection reset";
             AmqpError "connection reset"] ∧
          ErrOpenState ∉ buf (emitErr r3)
      | Panic _ => False
      end
  | Panic _ => False
  end.
Proof.
  vm_compute. repeat split.
  intros H. repeat (apply elem_of_cons in H as [H|H]; [discriminate H|]).
  by apply elem_of_nil in H.
Qed.

(** ** The observer of the breaker *)

(** C8: a façade built by [NewRabbus] hands the breaker the closure
    that calls the configured [OnStateChange] without a nil check, so a
    state transition of the breaker logs a call of the configured
    function with the breaker's name and the two states when there is
    one, and panics when it is nil; with a nil [OnStateChange] no
    sequence of steps of the program can end with the breaker in another
    state than it started in. *)
Theorem nil_OnStateChange_panics
    (broker : Broker) (c : Config.t) (cb : CircuitBreaker) (st : BState)
    (now : Z) (w : World) (ops : list Op) (r : rabbus) :
  (∀ r0 w0 w1,
     NewRabbus broker c w0 = Ok (inr r0, w1) →
     onStateChange (breaker r0) = Some (observer (config r0)) ∧
     Config.OnStateChange (config r0) = Config.OnStateChange c) ∧
  (onStateChange cb = Some (observer c) → state cb ≠ st →
   match Config.OnStateChange c with
   | None => ∃ msg, setState cb st now w = Panic msg
   | Some f =>
       ∃ cb',
         setState cb st now w
         = Ok (cb', logged w (EvOnStateChange f (name cb)
                                (State_String (state cb))
                                (State_String st))) ∧
         state cb' = st
   end) ∧
  (wired r → Config.OnStateChange (config r) = None →
   match run broker ops r w with
   | Ok (r', _) => state (breaker r') = state (breaker r)
   | Panic _ => True
   end).
Proof.
  split; [|split].
  - intros r0 w0 w1 Hnew.
    destruct (NewRabbus_started broker c w0 r0 w1 Hnew) as (Hw & Hc & _).
    split; [by apply wired_observer|].
    by rewrite Hc, effective_OnStateChange.
  - intros Hobs Hne. unfold setState. rewrite decide_False by done.
    rewrite Hobs. unfold observer, callOnStateChange, bind.
    destruct (Config.OnStateChange c) as [f|]; simpl.
    + by eexists.
    + by eexists.
  - intros Hw Hnil.
    pose proof (run_cache broker "" ops r w Hw) as H. unfold wp in H.
    destruct (run broker ops r w) as [[r' w']|]; [|done].
    destruct H as (_ & _ & _ & _ & _ & HC).
    destruct (decide (state (breaker r') = state (breaker r))) as [|Hne];
      [done|].
    by destruct (HC Hne).
Qed.

Lemma nil_OnStateChange_panics_witness :
  onStateChange (breaker unobservedRabbus)
    = Some (observer (configWith 2 None)) ∧
  state (breaker unobservedRabbus) ≠ StateOpen ∧
  ∃ msg, setState (breaker unobservedRabbus) StateOpen 0 unobservedWorld
         = Panic msg.
Proof.
  split; [reflexivity|]. split; [discriminate|].
  pose proof (nil_OnStateChange_panics brokerPublishDown (configWith 2 None)
                (breaker unobservedRabbus) StateOpen 0 unobservedWorld []
                unobservedRabbus) as H.
  apply proj2, proj1 in H. apply H; [reflexivity|discriminate].
Defined.

(** The panic in a run: threshold 2, no [OnStateChange], a broker that
    refuses every publish; the third failed message trips the breaker
    and the process dies in the observer call. *)
Lemma nil_OnStateChange_trip_panics :
  run brokerPublishDown
      [OpEmit ordersCreated; OpEmit ordersCreated; OpEmit ordersCreated]
      unobservedRabbus unobservedWorld
  = Panic "invalid memory address or nil pointer dereference".
Proof. vm_compute. reflexivity. Qed.

(** * Further properties of the code *)

(** ** NewRabbus: failure and success *)

(** X1: when the dial fails, [NewRabbus] returns the dial error after
    that one call; when the dial succeeds and the channel cannot be
    opened, it returns the channel error after the two calls, and the
    connection it had opened is not closed. *)
Theorem NewRabbus_failure (broker : Broker) (c : Config.t) (w : World) :
  (∀ reason,
     onDial broker (trace w) (Config.Dsn c) = inl reason →
     NewRabbus broker c w
     = Ok (inl (AmqpError reason),
           logged w (EvDial (Config.Dsn c) (inl reason)))) ∧
  (∀ cn reason,
     onDial broker (trace w) (Config.Dsn c) = inr cn →
     onChannel broker (trace w ++ [EvDial (Config.Dsn c) (inr cn)]) cn
       = inl reason →
     NewRabbus broker c w
     = Ok (inl (AmqpError reason),
           mkWorld (trace w ++ [EvDial (Config.Dsn c) (inr cn);
                                EvChannel cn (inl reason)]) (clock w))).
Proof.
  split.
  - intros reason Hd.
    unfold NewRabbus, amqpDial, bind, getTrace, log, ret. simpl.
    by rewrite Hd.
  - intros cn reason Hd Hc.
    unfold NewRabbus, amqpDial, connChannel, bind, getTrace, log, ret. simpl.
    rewrite Hd. simpl. rewrite Hc. simpl. by rewrite <- app_assoc.
Qed.

Lemma NewRabbus_failure_witness :
  NewRabbus brokerDialDown (configWith 2 None) world0
  = Ok (inl (AmqpError "connection refused"),
        mkWorld [EvDial "amqp://localhost" (inl "connection refused")] 0) ∧
  NewRabbus brokerChannelDown (configWith 2 None) world0
  = Ok (inl (AmqpError "channel max reached"),
        mkWorld [EvDial "amqp://localhost" (inr 0%nat);
                 EvChannel 0%nat (inl "channel max reached")] 0).
Proof.
  split.
  - exact (proj1 (NewRabbus_failure brokerDialDown (configWith 2 None) world0)
             "connection refused" eq_refl).
  - exact (proj2 (NewRabbus_failure brokerChannelDown (configWith 2 None)
                    world0) 0%nat "channel max reached" eq_refl eq_refl).
Defined.

(** X2: when the broker accepts the dial and the channel, [NewRabbus]
    makes exactly these two calls and returns a façade on the two handles
    it was given, with an empty declaration cache, three unbuffered, open
    and empty Go channels and a closed breaker with cleared counts; the
    configuration it keeps is the one it was given, except that a zero
    threshold has become 5, so the kept threshold is never zero. *)
Theorem NewRabbus_success
    (broker : Broker) (c : Config.t) (w : World) (cn chn : Handle) :
  onDial broker (trace w) (Config.Dsn c) = inr cn →
  onChannel broker (trace w ++ [EvDial (Config.Dsn c) (inr cn)]) cn
    = inr chn →
  ∃ r,
    NewRabbus broker c w
    = Ok (inr r, mkWorld (trace w ++ [EvDial (Config.Dsn c) (inr cn);
                                      EvChannel cn (inr chn)]) (clock w)) ∧
    conn r = cn ∧ ch r = chn ∧ exDeclared r = ∅ ∧
    emit r = mkChan [] 0 false ∧ emitErr r = mkChan [] 0 false ∧
    emitOk r = mkChan [] 0 false ∧
    state (breaker r) = StateClosed ∧ counts (breaker r) = counts_clear ∧
    config r
    = Config.mk (Config.Dsn c) (Config.Durable c) (Config.Attempts c)
        (Config.Sleep c) (Config.Interval c) (Config.Timeout c)
        (if Config.Threshold c =? 0 then 5 else Config.Threshold c)
        (Config.OnStateChange c) ∧
    Config.Threshold (config r) ≠ 0.
Proof.
  intros Hd Hc.
  unfold NewRabbus, amqpDial, connChannel, bind, getTrace, log, ret,
    NewCircuitBreaker, timeNow. simpl.
  rewrite Hd. simpl. rewrite Hc. simpl. eexists. split.
  { by rewrite <- app_assoc. }
  simpl. do 8 (split; [reflexivity|]).
  destruct (Config.Threshold c =? 0) eqn:E; simpl.
  - split; [reflexivity|discriminate].
  - split; [by destruct c|]. by apply Z.eqb_neq.
Qed.

Lemma NewRabbus_success_witness :
  ∃ r,
    NewRabbus brokerUp (configWith 0 None) world0
    = Ok (inr r, mkWorld [EvDial "amqp://localhost" (inr 0%nat);
                          EvChannel 0%nat (inr 1%nat)] 0) ∧
    conn r = 0%nat ∧ ch r = 1%nat ∧ Config.Threshold (config r) = 5.
Proof.
  destruct (NewRabbus_success brokerUp (configWith 0 None) world0 0%nat 1%nat
              eq_refl eq_refl)
    as (r & Hr & Hcn & Hch & _ & _ & _ & _ & _ & _ & Hcfg & _).
  exists r. split; [exact Hr|]. split; [exact Hcn|]. split; [exact Hch|].
  by rewrite Hcfg.
Defined.

(** ** Listen: the four broker calls *)

(** X3: [Listen] stops at the first broker call that fails and returns
    that call's error: a failed exchange declare is the only call made;
    a failed queue declare comes after the exchange declare and nothing
    follows it; a failed bind comes after the two declares; a failed
    consume comes after the bind, and what was declared and bound before
    is left as it is.  The exchange and the queue are declared with the
    durability of the configuration, and the bind and the consume use the
    queue name the broker returned. *)
Theorem Listen_stops_at_first_failure
    (broker : Broker) (CM : Type) (c : ListenConfig.t) (r : rabbus)
    (w : World) :
  ListenConfig.Exchange c ≠ "" → ListenConfig.Kind c ≠ "" →
  ListenConfig.Queue c ≠ "" →
  let durable := Config.Durable (config r) in
  let ex := ListenConfig.Exchange c in
  let declared res :=
    EvExchangeDeclare (ch r) ex (ListenConfig.Kind c) durable res in
  let queued res :=
    EvQueueDeclare (ch r) (ListenConfig.Queue c) durable res in
  let bound q res := EvQueueBind (ch r) q (ListenConfig.Key c) ex res in
  let answer reason (t : list Event) :=
    Listen broker (ConsumerMessage := CM) c r w
    = Ok (inl (AmqpError reason), mkWorld (trace w ++ t) (clock w)) in
  (∀ reason,
     onExchangeDeclare broker (trace w) (ch r) ex (ListenConfig.Kind c)
                       durable = Some reason →
     answer reason [declared (Some reason)]) ∧
  (∀ reason,
     onExchangeDeclare broker (trace w) (ch r) ex (ListenConfig.Kind c)
                       durable = None →
     onQueueDeclare broker (trace w ++ [declared None]) (ch r)
                    (ListenConfig.Queue c) durable = inl reason →
     answer reason [declared None; queued (inl reason)]) ∧
  (∀ q reason,
     onExchangeDeclare broker (trace w) (ch r) ex (ListenConfig.Kind c)
                       durable = None →
     onQueueDeclare broker (trace w ++ [declared None]) (ch r)
                    (ListenConfig.Queue c) durable = inr q →
     onQueueBind broker (trace w ++ [declared None; queued (inr q)]) (ch r)
                 q (ListenConfig.Key c) ex = Some reason →
     answer reason [declared None; queued (inr q); bound q (Some reason)]) ∧
  (∀ q reason,
     onExchangeDeclare broker (trace w) (ch r) ex (ListenConfig.Kind c)
                       durable = None →
     onQueueDeclare broker (trace w ++ [declared None]) (ch r)
                    (ListenConfig.Queue c) durable = inr q →
     onQueueBind broker (trace w ++ [declared None; queued (inr q)]) (ch r)
                 q (ListenConfig.Key c) ex = None →
     onConsume broker
       (trace w ++ [declared None; queued (inr q); bound q None]) (ch r) q
       = inl reason →
     answer reason [declared None; queued (inr q); bound q None;
                    EvConsume (ch r) q (inl reason)]).
Proof.
  intros He Hk Hq durable ex declared queued bound answer.
  subst answer declared queued bound. cbv beta. unfold Listen.
  rewrite !decide_False by done.
  rewrite (bind_Ok _ _ _ _ _ (ExchangeDeclare_run broker _ _ _ _ w)).
  fold durable ex.
  split; [|split; [|split]].
  - intros reason ->. reflexivity.
  - intros reason -> H2. simpl.
    rewrite (bind_Ok _ _ _ _ _ (QueueDeclare_run broker _ _ _ _)).
    unfold logged; simpl. fold durable ex. rewrite H2. simpl.
    by rewrite <- ?app_assoc.
  - intros q reason -> H2 H3. simpl.
    rewrite (bind_Ok _ _ _ _ _ (QueueDeclare_run broker _ _ _ _)).
    unfold logged; simpl. fold durable ex. rewrite H2. simpl.
    rewrite (bind_Ok _ _ _ _ _ (QueueBind_run broker _ _ _ _ _)).
    unfold logged; simpl. rewrite <- ?app_assoc. simpl.
    fold durable ex. by rewrite H3.
  - intros q reason -> H2 H3 H4. simpl.
    rewrite (bind_Ok _ _ _ _ _ (QueueDeclare_run broker _ _ _ _)).
    unfold logged; simpl. fold durable ex. rewrite H2. simpl.
    rewrite (bind_Ok _ _ _ _ _ (QueueBind_run broker _ _ _ _ _)).
    unfold logged; simpl. rewrite <- ?app_assoc. simpl.
    fold durable ex. rewrite H3. simpl.
    rewrite (bind_Ok _ _ _ _ _ (Consume_run broker _ _ _)).
    unfold logged; simpl. rewrite <- ?app_assoc. simpl.
    fold durable ex. by rewrite H4.
Qed.

Lemma Listen_stops_at_first_failure_witness :
  Listen brokerConsumeDown (ConsumerMessage := AmqpDelivery) ordersQueue
         idleRabbus world0
  = Ok (inl (AmqpError "not found"),
        mkWorld [EvExchangeDeclare 1%nat "orders" "topic" true None;
                 EvQueueDeclare 1%nat "q" true (inr "q");
                 EvQueueBind 1%nat "q" "created" "orders" None;
                 EvConsume 1%nat "q" (inl "not found")] 0).
Proof.
  assert ("orders" ≠ "") as H1 by discriminate.
  assert ("topic" ≠ "") as H2 by discriminate.
  assert ("q" ≠ "") as H3 by discriminate.
  pose proof (Listen_stops_at_first_failure brokerConsumeDown AmqpDelivery
                ordersQueue idleRabbus world0 H1 H2 H3) as H.
  cbv zeta in H. apply proj2, proj2, proj2 in H.
  exact (H "q" "not found" eq_refl eq_refl eq_refl eq_refl).
Defined.

(** ** The pipeline while the broker accepts everything *)

Lemma afterRequest_closed_success cb g w :
  state cb = StateClosed →
  ∃ cb2,
    afterRequest cb g true w = Ok (cb2, w) ∧
    state cb2 = StateClosed ∧ sameSettings cb cb2.
Proof.
  intros Hs. unfold afterRequest, bind, timeNow, currentState. rewrite Hs.
  destruct (expiry cb) as [t|]; [destruct (t <? clock w)|]; simpl;
    case_decide; simpl; rewrite ?Hs; simpl; eexists;
    (split; [reflexivity|]); by repeat split.
Qed.

Lemma Execute_closed_success cb (req : M (option error)) w w1 :
  state cb = StateClosed → req w = Ok (None, w1) →
  ∃ cb',
    Execute cb req w = Ok ((None, cb'), w1) ∧
    state cb' = StateClosed ∧ sameSettings cb cb'.
Proof.
  intros Hs Hreq. unfold Execute.
  destruct (beforeRequest_closed_any cb w Hs) as (g & cb1 & Hb & Hs1 & HS1).
  rewrite (bind_Ok _ _ _ _ _ Hb). cbv beta iota.
  rewrite (bind_Ok _ _ _ _ _ Hreq).
  destruct (afterRequest_closed_success cb1 g w1 Hs1)
    as (cb2 & Ha & Hs2 & HS2).
  replace (bool_decide (None = None)) with true
    by (symmetry; by apply bool_decide_eq_true).
  rewrite (bind_Ok _ _ _ _ _ Ha). exists cb2.
  split; [reflexivity|]. split; [done|]. by eapply sameSettings_trans.
Qed.

Lemma published_app t1 t2 : published (t1 ++ t2) = published t1 ++ published t2.
Proof. unfold published. apply omap_app. Qed.

Section BrokerAccepts.

Variable broker : Broker.
Hypothesis publish_accepted :
  ∀ t chn ex key p, onPublish broker t chn ex key p = None.
Hypothesis declare_accepted :
  ∀ t chn ex kind durable,
    onExchangeDeclare broker t chn ex kind durable = None.

Lemma retryDo_accepted m r attempts sleep w :
  retryDo (publishOnce broker m r) attempts sleep w
  = Ok (None,
        mkWorld (trace w ++
                 [EvRetryDo attempts sleep;
                  EvPublish (ch r) (Message.Exchange m) (Message.Key m)
                    (Publishing.mk (Message.ContentType m) "UTF-8"
                       (Message.DeliveryMode m) (clock w)
                       (Message.Payload m)) None])
                (clock w)).
Proof.
  unfold retryDo, bind, log.
  destruct (Z.to_nat (attempts - 1)); simpl;
    unfold bind, publishOnce, bind, timeNow; rewrite Publish_run;
    simpl; rewrite publish_accepted; unfold logged; simpl;
    by rewrite <- app_assoc.
Qed.

(** One message: at most one declare, one call of the retry helper, one
    publish attempt and no sleep; the success signal; the breaker stays
    closed. *)
Lemma produce_accepted m r w :
  state (breaker r) = StateClosed →
  ∃ r' w',
    produce broker m r w = Ok (r', w') ∧
    emitOk r' = chanSend tt (emitOk r) ∧ emitErr r' = emitErr r ∧
    emit r' = emit r ∧ conn r' = conn r ∧ ch r' = ch r ∧
    config r' = config r ∧
    state (breaker r') = StateClosed ∧
    exDeclared r' = {[Message.Exchange m]} ∪ exDeclared r ∧
    published (trace w')
    = published (trace w)
      ++ [(Message.Exchange m, Message.Key m, Message.Payload m)] ∧
    countIf isSleep (trace w') = countIf isSleep (trace w) ∧
    countIf (isDeclareOf (Message.Exchange m)) (trace w')
    = (countIf (isDeclareOf (Message.Exchange m)) (trace w)
       + missing (Message.Exchange m) r)%nat ∧
    clock w' = clock w.
Proof.
  intros Hs. unfold produce, ensureExchange, missing.
  assert (∀ s w0,
    state (breaker (with_exDeclared r s)) = StateClosed →
    ∃ r' w',
      publishGuarded broker (applyDefaults m) (with_exDeclared r s) w0
      = Ok (r', w') ∧
      emitOk r' = chanSend tt (emitOk r) ∧ emitErr r' = emitErr r ∧
      emit r' = emit r ∧ conn r' = conn r ∧ ch r' = ch r ∧
      config r' = config r ∧ state (breaker r') = StateClosed ∧
      exDeclared r' = s ∧
      trace w'
      = trace w0
        ++ [EvRetryDo (Config.Attempts (config r)) (Config.Sleep (config r));
            EvPublish (ch r) (Message.Exchange m) (Message.Key m)
              (Publishing.mk (Message.ContentType (applyDefaults m)) "UTF-8"
                 (Message.DeliveryMode (applyDefaults m)) (clock w0)
                 (Message.Payload m)) None] ∧
      clock w' = clock w0) as Hguard.
  { intros s w0 Hs0. unfold publishGuarded.
    pose proof (retryDo_accepted (applyDefaults m) (with_exDeclared r s)
                  (Config.Attempts (config r)) (Config.Sleep (config r)) w0)
      as Hreq.
    destruct (Execute_closed_success _ _ _ _ Hs0 Hreq)
      as (cb' & HE & Hs' & _).
    simpl config. rewrite (bind_Ok _ _ _ _ _ HE). cbv beta iota.
    eexists _, _. split; [reflexivity|]. simpl.
    rewrite applyDefaults_Exchange.
    assert (Message.Key (applyDefaults m) = Message.Key m) as ->
      by (unfold applyDefaults; by repeat case_match).
    assert (Message.Payload (applyDefaults m) = Message.Payload m) as ->
      by (unfold applyDefaults; by repeat case_match).
    by repeat split. }
  case_decide as Hin.
  - rewrite (bind_Ok _ _ _ _ _ (eq_refl : ret (None, r) w = Ok (_, w))).
    cbv beta iota.
    destruct (Hguard (exDeclared r) w Hs)
      as (r' & w' & Hp & ? & ? & ? & ? & ? & ? & ? & He & Ht & Hc).
    replace (with_exDeclared r (exDeclared r)) with r in Hp by by destruct r.
    exists r', w'. split; [exact Hp|]. rewrite Ht.
    do 7 (split; [done|]).
    split; [rewrite He; symmetry;
           by apply subseteq_union_1_L, singleton_subseteq_l|].
    split; [by rewrite published_app|].
    split; [by rewrite countIf_app; unfold countIf; simpl; lia|].
    split; [|done]. rewrite countIf_app. unfold countIf; simpl. lia.
  - unfold bind at 1 2. rewrite ExchangeDeclare_run, declare_accepted. simpl.
    destruct (Hguard ({[Message.Exchange m]} ∪ exDeclared r)
                (logged w (EvExchangeDeclare (ch r) (Message.Exchange m)
                             (Message.Kind m) (Config.Durable (config r))
                             None)) Hs)
      as (r' & w' & Hp & ? & ? & ? & ? & ? & ? & ? & He & Ht & Hc).
    exists r', w'. split; [exact Hp|]. rewrite Ht. unfold logged; simpl.
    do 7 (split; [done|]). split; [done|].
    split; [by rewrite !published_app; simpl; rewrite app_nil_r|].
    split; [by rewrite !countIf_app; unfold countIf; simpl; lia|].
    split; [|done]. rewrite !countIf_app. unfold countIf; simpl.
    rewrite bool_decide_true by done. simpl. lia.
Qed.

End BrokerAccepts.

(** X4: while the breaker is closed and the broker accepts every declare
    and every publish, the producer loop gives every message exactly one
    success signal and no error; the messages are published in the order
    they were taken, each with its own exchange, routing key and payload,
    in one attempt and without any sleep; the breaker stays closed; and
    the cache ends up holding, besides what it held, exactly the
    exchanges of the messages. *)
Theorem pipeline_accepts_in_order
    (broker : Broker) (ms : list Message.t) (r : rabbus) (w : World) :
  (∀ t chn ex key p, onPublish broker t chn ex key p = None) →
  (∀ t chn ex kind durable,
     onExchangeDeclare broker t chn ex kind durable = None) →
  state (breaker r) = StateClosed →
  ∃ r' w',
    registerLoop broker ms r w = Ok (r', w') ∧
    buf (emitOk r') = buf (emitOk r) ++ replicate (length ms) tt ∧
    emitErr r' = emitErr r ∧
    state (breaker r') = StateClosed ∧
    exDeclared r' = list_to_set (Message.Exchange <$> ms) ∪ exDeclared r ∧
    published (trace w')
    = published (trace w)
      ++ ((λ m, (Message.Exchange m, Message.Key m, Message.Payload m))
            <$> ms) ∧
    countIf isSleep (trace w') = countIf isSleep (trace w) ∧
    clock w' = clock w.
Proof.
  intros Hpub Hdecl. revert r w.
  induction ms as [|m ms IH]; intros r w Hs; simpl.
  - exists r, w. split; [done|]. rewrite !app_nil_r.
    split; [done|]. split; [done|]. split; [done|].
    split; [by rewrite union_empty_l_L|]. done.
  - destruct (produce_accepted broker Hpub Hdecl m r w Hs)
      as (r1 & w1 & Hp & Hok & Herr & _ & _ & _ & _ & Hs1 & He & Hpb & Hsl
          & _ & Hc).
    rewrite (bind_Ok _ _ _ _ _ Hp).
    destruct (IH r1 w1 Hs1)
      as (r2 & w2 & Hr & Hok2 & Herr2 & Hs2 & He2 & Hpb2 & Hsl2 & Hc2).
    exists r2, w2. split; [exact Hr|].
    split.
    { rewrite Hok2, Hok. simpl. by rewrite <- app_assoc. }
    split; [congruence|]. split; [done|].
    split.
    { rewrite He2, He, (assoc_L (∪)).
      by rewrite (comm_L (∪) (list_to_set _) {[_]}). }
    split.
    { rewrite Hpb2, Hpb. by rewrite <- app_assoc. }
    split; congruence.
Qed.

Lemma pipeline_accepts_in_order_witness :
  state (breaker startedRabbus) = StateClosed ∧
  ∃ r' w',
    registerLoop brokerUp
      [ordersCreated; Message.mk "audit" "fanout" "" [] 1 "plain/text"]
      startedRabbus startedWorld = Ok (r', w') ∧
    buf (emitOk r') = [tt; tt] ∧
    published (trace w') = [("orders", "created", []); ("audit", "", [])].
Proof.
  split; [reflexivity|].
  destruct (pipeline_accepts_in_order brokerUp
              [ordersCreated; Message.mk "audit" "fanout" "" [] 1 "plain/text"]
              startedRabbus startedWorld)
    as (r' & w' & Hr & Hok & _ & _ & _ & Hpb & _); try reflexivity.
  exists r', w'. split; [exact Hr|]. split; [exact Hok|exact Hpb].
Defined.

(** ** What produce asks of the broker *)

Lemma guardedEvent_pipelineEvent m r chn e :
  guardedEvent (applyDefaults m) chn e → pipelineEvent m r e.
Proof.
  destruct e; simpl; try done.
  intros (_ & -> & -> & _ & -> & _ & ->).
  by rewrite applyDefaults_Exchange, applyDefaults_Key,
    applyDefaults_Payload.
Qed.

(** X5: every call [produce] makes for a message concerns that message
    only: a declare of its exchange with its kind and the configured
    durability, made exactly when the exchange is not in the cache, and
    publishes to its exchange with its routing key, its payload and the
    content encoding "UTF-8"; it never dials, opens a channel, declares
    or binds a queue, consumes or closes anything, and it leaves the
    configuration and the input channel of the façade as they were. *)
Theorem produce_calls
    (broker : Broker) (m : Message.t) (r : rabbus) (w : World) :
  wired r →
  match produce broker m r w with
  | Ok (r', w') =>
      (∃ d, trace w' = trace w ++ d ∧ Forall (pipelineEvent m r) d) ∧
      countIf (isDeclareOf (Message.Exchange m)) (trace w')
      = (countIf (isDeclareOf (Message.Exchange m)) (trace w)
         + missing (Message.Exchange m) r)%nat ∧
      config r' = config r ∧ emit r' = emit r
  | Panic _ => Config.OnStateChange (config r) = None
  end.
Proof.
  intros Hw.
  pose proof (produce_wp broker m r w (wired_observer r Hw)) as H.
  unfold wp in H. destruct (produce broker m r w) as [[r' w']|]; [|exact H].
  destruct H as ((Hcn & Hch & Hem & Hcf & _) & _ & _ & HD).
  assert (∀ w0, ext (guardedEvent (applyDefaults m) (ch r)) w0 w' →
                ext (pipelineEvent m r) w0 w') as Hmono.
  { intros w0. apply ext_mono. intros e.
    apply guardedEvent_pipelineEvent. }
  assert (∀ w0, ext (guardedEvent (applyDefaults m) (ch r)) w0 w' →
                countIf (isDeclareOf (Message.Exchange m)) (trace w')
                = countIf (isDeclareOf (Message.Exchange m)) (trace w0))
    as Hcount.
  { intros w0 HX. apply (countIf_ext notDeclare).
    - apply notDeclare_isDeclareOf.
    - eapply ext_mono; [|exact HX]. apply guardedEvent_notDeclare. }
  unfold missing. case_decide as Hin.
  { destruct HD as [_ HX]. split; [by apply Hmono|].
    split; [rewrite (Hcount w HX); lia|done]. }
  destruct (declareAnswer broker m r w) as [reason|].
  { destruct HD as [-> ->]. split.
    - eexists [_]. split; [done|]. by repeat constructor.
    - split; [|done]. rewrite countIf_logged. simpl.
      by rewrite bool_decide_true. }
  destruct HD as [_ HX]. split.
  - eapply (ext_trans _ w); [|by apply Hmono].
    apply ext_logged. by repeat split.
  - split; [|done]. rewrite (Hcount _ HX), countIf_logged. simpl.
    by rewrite bool_decide_true.
Qed.

Lemma produce_calls_witness :
  wired startedRabbus ∧
  match produce brokerUp ordersCreated startedRabbus startedWorld with
  | Ok (r', w') =>
      (∃ d, trace w' = trace startedWorld ++ d ∧
            Forall (pipelineEvent ordersCreated startedRabbus) d) ∧
      countIf (isDeclareOf (Message.Exchange ordersCreated)) (trace w')
      = (countIf (isDeclareOf (Message.Exchange ordersCreated))
                 (trace startedWorld)
         + missing (Message.Exchange ordersCreated) startedRabbus)%nat ∧
      config r' = config startedRabbus ∧ emit r' = emit startedRabbus
  | Panic _ => Config.OnStateChange (config startedRabbus) = None
  end.
Proof.
  pose proof (produce_calls brokerUp ordersCreated startedRabbus startedWorld
                startedWith_wired) as H.
  split.
  - exact startedWith_wired.
  - exact H.
Defined.

(** X6: the breaker guards the publish only.  A failed declare is sent
    on the error channel without passing through the breaker, so it is
    not counted as a failure; and while the breaker is open, a message
    to an exchange that is not in the cache still has its exchange
    declared at the broker and recorded before the message is rejected
    with the breaker-open error. *)
Theorem declare_outside_breaker
    (broker : Broker) (m : Message.t) (r : rabbus) (w : World) (t : Z) :
  Message.Exchange m ∉ exDeclared r →
  let declared res :=
    logged w (EvExchangeDeclare (ch r) (Message.Exchange m)
                (Message.Kind m) (Config.Durable (config r)) res) in
  (∀ reason,
     declareAnswer broker m r w = Some reason →
     ∃ r', produce broker m r w = Ok (r', declared (Some reason)) ∧
           breaker r' = breaker r) ∧
  (declareAnswer broker m r w = None →
   state (breaker r) = StateOpen → expiry (breaker r) = Some t →
   clock w ≤ t →
   produce broker m r w
   = Ok (with_emitErr
           (with_exDeclared r ({[Message.Exchange m]} ∪ exDeclared r))
           (chanSend ErrOpenState (emitErr r)),
         declared None)).
Proof.
  intros Hin declared. split.
  - intros reason Hans. eexists.
    split; [by apply produce_declare_failed|done].
  - intros Hans Hs He Ht. unfold produce, ensureExchange.
    rewrite decide_False by done. unfold bind at 1 2.
    rewrite ExchangeDeclare_run. fold (declareAnswer broker m r w).
    rewrite Hans. simpl. unfold publishGuarded. simpl.
    rewrite (bind_Ok _ _ _ _ _
               (Execute_open (breaker r) _ (logged w _) t Hs He Ht)).
    cbv beta iota. simpl.
    by destruct r as [? ? [] ? ? ? ? ?].
Qed.

Lemma declare_outside_breaker_witness :
  (Message.Exchange ordersCreated ∉ exDeclared startedRabbus) ∧
  ∃ r', produce brokerDeclareDown ordersCreated startedRabbus startedWorld
        = Ok (r', logged startedWorld
                    (EvExchangeDeclare 1%nat "orders" "topic" true
                       (Some "access refused"))) ∧
        breaker r' = breaker startedRabbus.
Proof.
  assert (Message.Exchange ordersCreated ∉ exDeclared startedRabbus) as Hin.
  { vm_compute. set_solver. }
  split; [exact Hin|].
  pose proof (declare_outside_breaker brokerDeclareDown ordersCreated
                startedRabbus startedWorld 0 Hin) as H.
  cbv zeta in H. apply proj1 in H.
  exact (H "access refused" eq_refl).
Defined.

(** ** The reconnection watcher *)

Lemma reconnectPost_round dsn r w fuel o w' (evs : list Event) :
  countIf isDial evs = 1%nat → countIf isSleep evs = 1%nat →
  countIf isClose evs = 0%nat →
  reconnectPost dsn r (mkWorld (trace w ++ evs) (clock w + 2 * second)) fuel
                o w' →
  reconnectPost dsn r w (S fuel) o w'.
Proof.
  intros Hd1 Hs1 Hc1 (n & Hn & Hd & Hsl & Hcl & Hck & Ho).
  exists (S n). simpl in *. rewrite !countIf_app in *.
  split; [lia|]. split; [lia|]. split; [lia|]. split; [lia|].
  split; [lia|].
  destruct o as [r'|]; [|lia].
  destruct Ho as (cn & chn & d & -> & ->).
  exists cn, chn, (evs ++ d). split; [done|]. by rewrite <- !app_assoc.
Qed.

Lemma amqpDial_run broker dsn w :
  amqpDial broker dsn w
  = Ok (toResult (onDial broker (trace w) dsn),
        logged w (EvDial dsn (onDial broker (trace w) dsn))).
Proof. reflexivity. Qed.

Lemma connChannel_run broker cn w :
  connChannel broker cn w
  = Ok (toResult (onChannel broker (trace w) cn),
        logged w (EvChannel cn (onChannel broker (trace w) cn))).
Proof. reflexivity. Qed.

Lemma reconnectLoop_post broker dsn r fuel : ∀ w,
  match reconnectLoop broker fuel dsn r w with
  | Ok (o, w') => reconnectPost dsn r w fuel o w'
  | Panic _ => False
  end.
Proof.
  induction fuel as [|fuel IH]; intros w.
  - simpl. exists 0%nat. rewrite !Nat.add_0_r. simpl.
    do 4 (split; [done|]). split; [lia|done].
  - simpl. unfold bind at 1, timeSleep at 1.
    change (0 `max` (2 * second)) with (2 * second).
    set (w1 := mkWorld (trace w ++ [EvSleep (2 * second)])
                       (clock w + 2 * second)).
    rewrite (bind_Ok _ _ _ _ _ (amqpDial_run broker dsn w1)).
    destruct (onDial broker (trace w1) dsn) as [err|cn]; simpl.
    { set (w2 := logged w1 _). specialize (IH w2).
      destruct (reconnectLoop broker fuel dsn r w2) as [[o w']|];
        [|exact IH].
      apply (reconnectPost_round dsn r w fuel o w'
               [EvSleep (2 * second); EvDial dsn (inl err)]); try done.
      subst w2 w1. unfold logged in IH. simpl in IH.
      by rewrite <- app_assoc in IH. }
    set (w2 := logged w1 _).
    rewrite (bind_Ok _ _ _ _ _ (connChannel_run broker cn w2)).
    destruct (onChannel broker (trace w2) cn) as [err|chn]; simpl.
    { set (w3 := logged w2 _). specialize (IH w3).
      destruct (reconnectLoop broker fuel dsn r w3) as [[o w']|];
        [|exact IH].
      apply (reconnectPost_round dsn r w fuel o w'
               [EvSleep (2 * second); EvDial dsn (inr cn);
                EvChannel cn (inl err)]); try done.
      subst w3 w2 w1. unfold logged in IH. simpl in IH.
      by rewrite <- !app_assoc in IH. }
    exists 1%nat. subst w2 w1. unfold logged. simpl.
    rewrite !countIf_snoc. simpl.
    split; [lia|]. split; [lia|]. split; [lia|]. split; [lia|].
    split; [lia|].
    exists cn, chn, [EvSleep (2 * second)].
    split; [done|]. by rewrite <- !app_assoc.
Qed.

Lemma reconnectLoop_more_fuel broker dsn r fuel : ∀ w r' w' k,
  reconnectLoop broker fuel dsn r w = Ok (Some r', w') →
  reconnectLoop broker (fuel + k) dsn r w = Ok (Some r', w').
Proof.
  induction fuel as [|fuel IH]; intros w r' w' k; simpl; [discriminate|].
  unfold bind at 1 4, timeSleep.
  set (w1 := mkWorld _ _).
  rewrite !(bind_Ok _ _ _ _ _ (amqpDial_run broker dsn w1)).
  destruct (onDial broker (trace w1) dsn) as [err|cn]; simpl;
    [by apply IH|].
  set (w2 := logged w1 _).
  rewrite !(bind_Ok _ _ _ _ _ (connChannel_run broker cn w2)).
  destruct (onChannel broker (trace w2) cn) as [err|chn]; simpl;
    [by apply IH|done].
Qed.

(** X7: a graceful close notification makes the watcher return without
    any call or change.  After an error notification every round of the
    loop sleeps two seconds and then dials once; a round whose dial or
    channel-open fails is followed by another round, and nothing is ever
    closed, so a connection whose channel could not be opened is left
    open; when a round succeeds the loop ends and the façade differs
    from the old one in the two handles only, which are the connection
    and the channel of that last round.  More fuel does not change a
    finished reconnection, and running out of fuel means every round
    looked at has failed. *)
Theorem notifyClose_rounds
    (broker : Broker) (fuel : nat) (dsn reason : string) (r : rabbus)
    (w : World) :
  notifyClose broker fuel dsn None r w = Ok (Some r, w) ∧
  match notifyClose broker fuel dsn (Some reason) r w with
  | Ok (o, w') =>
      reconnectPost dsn r w fuel o w' ∧
      ∀ r' k, o = Some r' →
              notifyClose broker (fuel + k) dsn (Some reason) r w
              = Ok (Some r', w')
  | Panic _ => False
  end.
Proof.
  split; [reflexivity|]. simpl.
  pose proof (reconnectLoop_post broker dsn r fuel w) as H.
  destruct (reconnectLoop broker fuel dsn r w) as [[o w']|] eqn:E; [|done].
  split; [exact H|]. intros r' k ->. by apply reconnectLoop_more_fuel.
Qed.

(** ** The cache and the handles over a run *)

(** X8: over any sequence of publishes, reconnections, closes and
    pauses, the publish path's successful declares and the cache agree:
    a name that has entered the cache was declared successfully exactly
    once in between, a name that is not in the cache was never declared
    successfully in between, and a name that was in the cache from the
    start was not declared again. *)
Theorem cache_entries_are_successful_declares
    (broker : Broker) (ops : list Op) (x : string) (r : rabbus) (w : World) :
  wired r →
  match run broker ops r w with
  | Ok (r', w') =>
      (x ∈ exDeclared r' → x ∉ exDeclared r →
       countIf (isOkDeclareOf x) (trace w')
       = S (countIf (isOkDeclareOf x) (trace w))) ∧
      (x ∉ exDeclared r' →
       countIf (isOkDeclareOf x) (trace w')
       = countIf (isOkDeclareOf x) (trace w)) ∧
      (x ∈ exDeclared r →
       x ∈ exDeclared r' ∧
       countIf (isOkDeclareOf x) (trace w')
       = countIf (isOkDeclareOf x) (trace w))
  | Panic _ => Config.OnStateChange (config r) = None
  end.
Proof.
  intros Hw. pose proof (run_cache broker x ops r w Hw) as H. unfold wp in H.
  destruct (run broker ops r w) as [[r' w']|]; [|exact H].
  destruct H as (_ & _ & HS & _ & HO & _). unfold missing in HO.
  split; [|split].
  - intros Hin Hnin.
    rewrite decide_True in HO by done. rewrite decide_False in HO by done.
    lia.
  - intros Hnin.
    assert (x ∉ exDeclared r) as Hnin0 by (intros ?; by apply Hnin, HS).
    rewrite !decide_False in HO by done. lia.
  - intros Hin. assert (x ∈ exDeclared r') as Hin' by by apply HS.
    split; [done|]. rewrite !decide_True in HO by done. lia.
Qed.

Lemma cache_entries_are_successful_declares_witness :
  wired startedRabbus ∧
  match run brokerUp [OpEmit ordersCreated; OpConnectionLost "EOF" 1;
                      OpEmit ordersCreated] startedRabbus startedWorld with
  | Ok (r', w') =>
      ("orders" ∈ exDeclared r' → "orders" ∉ exDeclared startedRabbus →
       countIf (isOkDeclareOf "orders") (trace w')
       = S (countIf (isOkDeclareOf "orders") (trace startedWorld))) ∧
      ("orders" ∉ exDeclared r' →
       countIf (isOkDeclareOf "orders") (trace w')
       = countIf (isOkDeclareOf "orders") (trace startedWorld)) ∧
      ("orders" ∈ exDeclared startedRabbus →
       "orders" ∈ exDeclared r' ∧
       countIf (isOkDeclareOf "orders") (trace w')
       = countIf (isOkDeclareOf "orders") (trace startedWorld))
  | Panic _ => Config.OnStateChange (config startedRabbus) = None
  end.
Proof.
  pose proof (cache_entries_are_successful_declares brokerUp
                [OpEmit ordersCreated; OpConnectionLost "EOF" 1;
                 OpEmit ordersCreated] "orders" startedRabbus startedWorld
                startedWith_wired) as H.
  split.
  - exact startedWith_wired.
  - exact H.
Defined.

Section HandlesOverTime.

Variable broker : Broker.

Lemma step_handles o r w :
  wired r →
  wp (step broker o r)
     (λ r' w', wired r' ∧ config r' = config r ∧
               (isReconnect o = false → conn r' = conn r ∧ ch r' = ch r))
     (Config.OnStateChange (config r) = None) w.
Proof.
  intros Hw. destruct o as [m|reason fuel| |d].
  - eapply wp_mono; [by apply step_emit_wp| |done].
    intros r' w' (Hw' & Hc & Hcn & Hch & _). done.
  - eapply wp_mono; [by apply (step_cache broker "")| |done].
    intros r' w' (Hw' & Hc & _). done.
  - unfold step, Close, channelClose, connectionClose, wp, bind, log, ret.
    simpl. done.
  - unfold step, wp, bind, elapse, ret. simpl. done.
Qed.

Lemma run_handles ops : ∀ r w,
  wired r →
  wp (run broker ops r)
     (λ r' w', wired r' ∧ config r' = config r ∧
               (forallb (λ o, negb (isReconnect o)) ops = true →
                conn r' = conn r ∧ ch r' = ch r))
     (Config.OnStateChange (config r) = None) w.
Proof.
  induction ops as [|o ops IH]; intros r w Hw; simpl.
  - by apply wp_ret.
  - apply wp_bind. eapply wp_mono; [by apply step_handles| |done].
    intros r1 w1 (Hw1 & Hc1 & Hh1).
    eapply wp_mono; [by apply IH| |by rewrite Hc1].
    intros r2 w2 (Hw2 & Hc2 & Hh2). split; [done|]. split; [congruence|].
    intros [Ho Hops]%andb_prop. apply negb_true_iff in Ho.
    destruct (Hh1 Ho) as [<- <-]. by apply Hh2.
Qed.

End HandlesOverTime.

(** X9: the configuration of the façade is never changed after
    construction, whatever it does; and the connection and channel
    handles change only when the watcher reconnects: publishes, [Close]
    and the passing of time leave both as they were (in particular
    [Close] does not clear them). *)
Theorem handles_change_only_on_reconnect
    (broker : Broker) (ops : list Op) (r : rabbus) (w : World) :
  wired r →
  match run broker ops r w with
  | Ok (r', w') =>
      config r' = config r ∧
      (forallb (λ o, negb (isReconnect o)) ops = true →
       conn r' = conn r ∧ ch r' = ch r)
  | Panic _ => Config.OnStateChange (config r) = None
  end.
Proof.
  intros Hw. pose proof (run_handles broker ops r w Hw) as H. unfold wp in H.
  destruct (run broker ops r w) as [[r' w']|]; [|exact H]. apply H.
Qed.

Lemma handles_change_only_on_reconnect_witness :
  wired startedRabbus ∧
  match run brokerUp [OpEmit ordersCreated; OpClose; OpElapse 5;
                      OpEmit ordersCreated] startedRabbus startedWorld with
  | Ok (r', w') =>
      config r' = config startedRabbus ∧
      (forallb (λ o, negb (isReconnect o))
         [OpEmit ordersCreated; OpClose; OpElapse 5; OpEmit ordersCreated]
       = true →
       conn r' = conn startedRabbus ∧ ch r' = ch startedRabbus)
  | Panic _ => Config.OnStateChange (config startedRabbus) = None
  end.
Proof.
  pose proof (handles_change_only_on_reconnect brokerUp
                [OpEmit ordersCreated; OpClose; OpElapse 5;
                 OpEmit ordersCreated] startedRabbus startedWorld
                startedWith_wired) as H.
  split.
  - exact startedWith_wired.
  - exact H.
Defined.

(** ** The relay when nobody receives *)

Section RelayAtProperties.

Context {CM : Type} (newCM : AmqpDelivery → CM).

(** Each blocking operation is a turn of [relayStep] or leaves the
    relay it stands for as it is, and a goroutine that cannot move
    stands for a relay that cannot. *)
Lemma relayMove_refines (s : RelayAt CM) :
  match relayMove newCM s with
  | Some s' =>
      relayOf s' = relayOf s ∨
      relayStep newCM (relayOf s) = Some (relayOf s')
  | None =>
      (finished s = true → inHand s = None ∧ onStream s = []) →
      relayStep newCM (relayOf s) = None
  end.
Proof.
  unfold relayMove, relayStep, relayOf.
  destruct s as [st cl [m|] out fin]; simpl; destruct fin; simpl; try done.
  - case_decide; [by right|done].
  - destruct st as [|m rest]; simpl; [|by left].
    destruct cl; [by right|done].
Qed.

Lemma relayMoves_app k1 k2 (s : RelayAt CM) :
  relayMoves newCM (k1 + k2) s = relayMoves newCM k2 (relayMoves newCM k1 s).
Proof.
  revert s. induction k1 as [|k1 IH]; intros s; simpl; [done|apply IH].
Qed.

Lemma relayMoves_blocked k (s : RelayAt CM) :
  relayMove newCM s = None → relayMoves newCM k s = s.
Proof. intros H. induction k as [|k IH]; simpl; [done|]. by rewrite H. Qed.

Lemma relayMove_keeps (s s' : RelayAt CM) :
  relayMove newCM s = Some s' →
  buf (output s') ++ map newCM (option_list (inHand s') ++ onStream s')
  = buf (output s) ++ map newCM (option_list (inHand s) ++ onStream s) ∧
  cap (output s') = cap (output s) ∧
  ((length (buf (output s)) ≤ cap (output s))%nat →
   (length (buf (output s')) ≤ cap (output s'))%nat).
Proof.
  unfold relayMove.
  destruct s as [st cl [m|] out fin]; simpl; destruct fin; simpl;
    try discriminate.
  - case_decide as Hroom; [|discriminate]. intros [= <-]. simpl.
    split; [by rewrite <- app_assoc|]. split; [done|].
    intros _. rewrite length_app. simpl. lia.
  - destruct st as [|m rest]; [destruct cl; [|discriminate]|];
      intros [= <-]; simpl; done.
Qed.

(** Nothing is lost and the capacity is respected. *)
Lemma relayMoves_keeps k : ∀ s : RelayAt CM,
  let s' := relayMoves newCM k s in
  buf (output s') ++ map newCM (option_list (inHand s') ++ onStream s')
  = buf (output s) ++ map newCM (option_list (inHand s) ++ onStream s) ∧
  cap (output s') = cap (output s) ∧
  ((length (buf (output s)) ≤ cap (output s))%nat →
   (length (buf (output s')) ≤ cap (output s'))%nat).
Proof.
  induction k as [|k IH]; intros s; cbv zeta; [done|].
  change (relayMoves newCM (S k) s)
    with (relayMoves newCM k (default s (relayMove newCM s))).
  destruct (relayMove newCM s) as [s1|] eqn:E; simpl default; [|apply IH].
  destruct (relayMove_keeps s s1 E) as (K1 & K2 & K3).
  destruct (IH s1) as (H1 & H2 & H3).
  split; [by rewrite H1, K1|]. split; [by rewrite H2, K2|].
  intros Hle. apply H3, K3, Hle.
Qed.

(** While there is room, two operations forward one delivery. *)
Lemma relayMoves_forward j : ∀ st cl (out : Chan CM),
  (j ≤ length st)%nat → (length (buf out) + j ≤ cap out)%nat →
  relayMoves newCM (j + j) (mkRelayAt st cl None out false)
  = mkRelayAt (drop j st) cl None
      (mkChan (buf out ++ map newCM (take j st)) (cap out) (closed out))
      false.
Proof.
  induction j as [|j IH]; intros st cl out Hj Hroom.
  { simpl. rewrite app_nil_r, drop_0. by destruct out. }
  destruct st as [|m rest]; [simpl in Hj; lia|].
  replace (S j + S j)%nat with (S (S (j + j))) by lia.
  change (relayMoves newCM (S (S (j + j)))
            (mkRelayAt (m :: rest) cl None out false))
    with (relayMoves newCM (S (j + j))
            (mkRelayAt rest cl (Some m) out false)).
  change (relayMoves newCM (S (j + j)) (mkRelayAt rest cl (Some m) out false))
    with (relayMoves newCM (j + j)
            (default (mkRelayAt rest cl (Some m) out false)
               (relayMove newCM (mkRelayAt rest cl (Some m) out false)))).
  unfold relayMove. simpl finished. simpl inHand. cbv iota.
  simpl output. rewrite decide_True by lia. simpl default.
  simpl onStream. simpl streamCloses.
  rewrite IH;
    [|simpl in Hj; lia
     |unfold chanSend; simpl; rewrite length_app; simpl; lia].
  unfold chanSend. simpl. by rewrite <- app_assoc.
Qed.

Lemma relayMoves_full n k (st : list AmqpDelivery) cl :
  (n < length st)%nat → (n + n + 1 ≤ k)%nat →
  let s := relayMoves newCM k (mkRelayAt st cl None (makeChan n) false) in
  buf (output s) = newCM <$> take n st ∧
  inHand s = st !! n ∧
  onStream s = drop (S n) st ∧
  relayMove newCM s = None.
Proof.
  intros Hlen Hk. cbv zeta.
  replace k with ((n + n) + (1 + (k - (n + n + 1))))%nat by lia.
  rewrite relayMoves_app, relayMoves_forward; [|lia|simpl; lia].
  rewrite relayMoves_app.
  destruct (lookup_lt_is_Some_2 st n Hlen) as [m Hm].
  rewrite (drop_S _ _ _ Hm).
  set (out := mkChan (buf (makeChan n) ++ map newCM (take n st))
                (cap (makeChan n)) (closed (makeChan n))).
  change (relayMoves newCM 1
            (mkRelayAt (m :: drop (S n) st) cl None out false))
    with (mkRelayAt (drop (S n) st) cl (Some m) out false).
  set (s := mkRelayAt (drop (S n) st) cl (Some m) out false).
  assert (relayMove newCM s = None) as Hb.
  { unfold relayMove, s, out. simpl. rewrite decide_False; [done|].
    rewrite length_map, length_take. lia. }
  rewrite (relayMoves_blocked _ s Hb). by subst s out.
Qed.

End RelayAtProperties.

(** X10: when the application does not receive, the relay goroutine of a
    successful [Listen] loses nothing and never holds more than 256
    messages in the buffer; once it has been scheduled 513 times on a
    stream of more than 256 deliveries, it has forwarded the first 256
    into the buffer, in order, has taken the 257th off the stream and is
    blocked sending it on the full channel: the later deliveries stay
    unread on the broker's stream. *)
Theorem relay_blocks_when_full
    (broker : Broker) (CM : Type) (newCM : AmqpDelivery → CM)
    (c : ListenConfig.t) (r : rabbus) (w w' : World) (s0 : Relay CM)
    (k : nat) :
  Listen broker c r w = Ok (inr s0, w') →
  let s := relayMoves newCM k (relayStart s0) in
  buf (output s) ++ map newCM (option_list (inHand s) ++ onStream s)
  = map newCM (pending s0) ∧
  (length (buf (output s)) ≤ 256)%nat ∧
  ((256 < length (pending s0))%nat → (513 ≤ k)%nat →
   buf (output s) = newCM <$> take 256 (pending s0) ∧
   inHand s = pending s0 !! 256%nat ∧
   onStream s = drop 257 (pending s0) ∧
   relayMove newCM s = None).
Proof.
  intros HL.
  destruct (Listen_success_inv _ _ _ _ _ _ _ HL) as (q & st & _ & ->).
  cbv zeta. unfold relayStart.
  change (pending (mkRelay (deliveries st) (closes st) (makeChan 256) false))
    with (deliveries st).
  change (msgsCloses (mkRelay (deliveries st) (closes st) (makeChan 256) false))
    with (closes st).
  change (messages (@mkRelay CM (deliveries st) (closes st) (makeChan 256)
                      false))
    with (@makeChan CM 256).
  change (returned (@mkRelay CM (deliveries st) (closes st) (makeChan 256)
                      false))
    with false.
  destruct (relayMoves_keeps newCM k
              (mkRelayAt (deliveries st) (closes st) None (makeChan 256) false))
    as (H1 & H2 & H3).
  split; [exact H1|]. split.
  { rewrite H2 in H3. apply H3. simpl. lia. }
  intros Hlen Hk.
  apply (relayMoves_full newCM 256 k (deliveries st) (closes st) Hlen).
  lia.
Qed.

Lemma relay_blocks_when_full_witness :
  (256 < length (pending (@mkRelay AmqpDelivery busyDeliveries false
                            (makeChan 256) false)))%nat ∧
  (513 ≤ 600)%nat ∧
  let s := relayMoves id 600
             (relayStart (mkRelay busyDeliveries false (makeChan 256) false)) in
  length (buf (output s)) = 256%nat ∧
  inHand s = Some (mkDelivery 257 "created" []) ∧
  length (onStream s) = 43%nat ∧
  relayMove id s = None.
Proof.
  assert (256 < length (pending (@mkRelay AmqpDelivery busyDeliveries false
                                   (makeChan 256) false)))%nat as H1
    by (apply Nat.ltb_lt; reflexivity).
  assert (513 ≤ 600)%nat as H2 by (apply Nat.leb_le; reflexivity).
  split; [exact H1|]. split; [exact H2|].
  pose proof (relay_blocks_when_full brokerBusy AmqpDelivery id ordersQueue
                idleRabbus world0 _ _ 600 eq_refl) as H.
  cbv zeta in H. apply proj2, proj2 in H.
  destruct (H H1 H2) as (Hb & Hh & Hs & Hm).
  cbn [deliveries closes pending] in Hb, Hh, Hs, Hm. cbv zeta.
  split; [by rewrite Hb|]. split; [by rewrite Hh|].
  split; [by rewrite Hs|exact Hm].
Defined.
